(** * Geospatial distance and bounding box (the module [@/lib/geo])

    A shallow embedding of the repository's geo module: the great-circle
    distance [calculateHaversineDistanceKm] and the pre-filter rectangle
    [computeBoundingBox], with the helpers they are built from.

    ** The two number models

    The module is embedded twice, line by line the same code over two
    carriers.

    - Exact arithmetic.  A JavaScript [number] is modelled as [number]:
      the NOT-A-NUMBER value, the two infinities, or a finite value carried
      as a real.  The operators and the [Math] functions follow ECMAScript
      on the special values (NaN propagates, [Infinity - Infinity] and
      [0 * Infinity] are NaN, every comparison with NaN is false,
      [Math.max]/[Math.min] return NaN when an argument is NaN, [Math.sqrt]
      of a negative and [Math.asin] outside [-1, 1] are NaN).  On finite
      values the arithmetic is exact: the rounding of IEEE-754 doubles,
      overflow to infinity and the sign of zero are not modelled.  The
      geometry of the module (which points a box contains, how the box is
      clamped, when it is well formed) is proved in this model, and every
      theorem outside the last part of the file is a statement about this
      exact-arithmetic reading of the code.

    - Double precision (module [IEEE]).  A [number] is a binary64 float
      with the IEEE operations of the kernel; [Math.sin], [Math.cos],
      [Math.asin], [Math.atan2] and [**], which ECMAScript leaves
      implementation-approximated, are the fields of a [MathLibrary] the two
      functions take as a parameter.  This model decides what depends on
      rounding: whether the haversine quantity stays inside the domain of the
      square roots, and whether two evaluation orders give the same double. *)

From Stdlib Require Import Reals Lra Bool.
From Stdlib Require Floats String DecimalString List.

Open Scope R_scope.

(** ** JavaScript numbers *)

Module JS.

Inductive number : Type :=
| NaN
| NegInfinity
| PosInfinity
| Fin (r : R).

Definition Rleb (x y : R) : bool := if Rle_dec x y then true else false.
Definition Rltb (x y : R) : bool := if Rlt_dec x y then true else false.

(** [a <= b] and [a < b]; [a >= b] and [a > b] are the same with the
    operands exchanged.  A comparison with NaN is false. *)
Definition le (a b : number) : bool :=
  match a, b with
  | NaN, _ | _, NaN => false
  | NegInfinity, _ => true
  | _, PosInfinity => true
  | Fin x, Fin y => Rleb x y
  | _, _ => false
  end.

Definition lt (a b : number) : bool :=
  match a, b with
  | NaN, _ | _, NaN => false
  | Fin x, Fin y => Rltb x y
  | NegInfinity, NegInfinity => false
  | NegInfinity, _ => true
  | PosInfinity, _ => false
  | Fin _, PosInfinity => true
  | Fin _, NegInfinity => false
  end.

Definition ge (a b : number) : bool := le b a.
Definition gt (a b : number) : bool := lt b a.

(** [s * Infinity] (when [positive]) or [s * -Infinity], for a finite [s]:
    the sign of [s] decides, and zero times infinity is NaN. *)
Definition scaled_infinity (s : R) (positive : bool) : number :=
  if Rlt_dec 0 s then (if positive then PosInfinity else NegInfinity)
  else if Rlt_dec s 0 then (if positive then NegInfinity else PosInfinity)
  else NaN.

Definition add (a b : number) : number :=
  match a, b with
  | NaN, _ | _, NaN => NaN
  | PosInfinity, NegInfinity | NegInfinity, PosInfinity => NaN
  | PosInfinity, _ | _, PosInfinity => PosInfinity
  | NegInfinity, _ | _, NegInfinity => NegInfinity
  | Fin x, Fin y => Fin (x + y)
  end.

Definition sub (a b : number) : number :=
  match a, b with
  | NaN, _ | _, NaN => NaN
  | PosInfinity, PosInfinity | NegInfinity, NegInfinity => NaN
  | PosInfinity, _ | _, NegInfinity => PosInfinity
  | NegInfinity, _ | _, PosInfinity => NegInfinity
  | Fin x, Fin y => Fin (x - y)
  end.

Definition mul (a b : number) : number :=
  match a, b with
  | NaN, _ | _, NaN => NaN
  | Fin x, Fin y => Fin (x * y)
  | Fin x, PosInfinity | PosInfinity, Fin x => scaled_infinity x true
  | Fin x, NegInfinity | NegInfinity, Fin x => scaled_infinity x false
  | PosInfinity, PosInfinity | NegInfinity, NegInfinity => PosInfinity
  | PosInfinity, NegInfinity | NegInfinity, PosInfinity => NegInfinity
  end.

(** Division.  A finite zero divisor is read as [+0]: a positive dividend
    gives [Infinity], a negative one [-Infinity], and [0 / 0] is NaN. *)
Definition div (a b : number) : number :=
  match a, b with
  | NaN, _ | _, NaN => NaN
  | Fin x, Fin y =>
      if Req_dec_T y 0 then
        (if Rlt_dec 0 x then PosInfinity
         else if Rlt_dec x 0 then NegInfinity else NaN)
      else Fin (x / y)
  | Fin _, _ => Fin 0
  | PosInfinity, Fin y => if Rlt_dec y 0 then NegInfinity else PosInfinity
  | NegInfinity, Fin y => if Rlt_dec y 0 then PosInfinity else NegInfinity
  | _, _ => NaN
  end.

(** [x ** 2]. *)
Definition sqr (a : number) : number := mul a a.

Definition Number_isFinite (a : number) : bool :=
  match a with
  | Fin _ => true
  | _ => false
  end.

Definition Math_max (a b : number) : number :=
  match a, b with
  | NaN, _ | _, NaN => NaN
  | _, _ => if lt a b then b else a
  end.

Definition Math_min (a b : number) : number :=
  match a, b with
  | NaN, _ | _, NaN => NaN
  | _, _ => if lt b a then b else a
  end.

Definition Math_PI : number := Fin PI.

Definition Math_sin (a : number) : number :=
  match a with
  | Fin x => Fin (sin x)
  | _ => NaN
  end.

Definition Math_cos (a : number) : number :=
  match a with
  | Fin x => Fin (cos x)
  | _ => NaN
  end.

Definition Math_asin (a : number) : number :=
  match a with
  | Fin x => if Rle_dec (-1) x then (if Rle_dec x 1 then Fin (asin x) else NaN) else NaN
  | _ => NaN
  end.

Definition Math_sqrt (a : number) : number :=
  match a with
  | Fin x => if Rle_dec 0 x then Fin (sqrt x) else NaN
  | PosInfinity => PosInfinity
  | _ => NaN
  end.

(** The angle of the point [(x, y)], in [(-PI, PI]], for finite operands. *)
Definition atan2 (y x : R) : R :=
  if Rlt_dec 0 x then atan (y / x)
  else if Rlt_dec x 0 then
    (if Rle_dec 0 y then atan (y / x) + PI else atan (y / x) - PI)
  else if Rlt_dec 0 y then PI / 2
  else if Rlt_dec y 0 then - (PI / 2)
  else 0.

Definition Math_atan2 (y x : number) : number :=
  match y, x with
  | NaN, _ | _, NaN => NaN
  | Fin b, Fin a => Fin (atan2 b a)
  | Fin b, PosInfinity => Fin 0
  | Fin b, NegInfinity => if Rlt_dec b 0 then Fin (- PI) else Fin PI
  | PosInfinity, Fin _ => Fin (PI / 2)
  | NegInfinity, Fin _ => Fin (- (PI / 2))
  | PosInfinity, PosInfinity => Fin (PI / 4)
  | PosInfinity, NegInfinity => Fin (3 * PI / 4)
  | NegInfinity, PosInfinity => Fin (- (PI / 4))
  | NegInfinity, NegInfinity => Fin (- (3 * PI / 4))
  end.

End JS.

Import JS.

Declare Scope js_scope.
Delimit Scope js_scope with js.
Bind Scope js_scope with number.
Infix "+" := add : js_scope.
Infix "-" := sub : js_scope.
Infix "*" := mul : js_scope.
Infix "/" := div : js_scope.
Infix "<=?" := le (at level 70, no associativity) : js_scope.
Infix "<?" := lt (at level 70, no associativity) : js_scope.
Infix ">=?" := ge (at level 70, no associativity) : js_scope.
Infix ">?" := gt (at level 70, no associativity) : js_scope.

(** ** The geo module *)

Record GeoCoordinate : Type := {
  latitude : number;
  longitude : number
}.

Record BoundingBox : Type := {
  minLatitude : number;
  maxLatitude : number;
  minLongitude : number;
  maxLongitude : number
}.

Record BoundingBoxParams : Type := {
  center : GeoCoordinate;
  radiusKm : number
}.

Record DistanceParams : Type := {
  origin : GeoCoordinate;
  destination : GeoCoordinate
}.

Definition EARTH_RADIUS_KM : number := Fin 6371.
Definition MIN_LATITUDE : number := Fin (-90).
Definition MAX_LATITUDE : number := Fin 90.
Definition MIN_LONGITUDE : number := Fin (-180).
Definition MAX_LONGITUDE : number := Fin 180.

Definition toRadians (value : number) : number :=
  ((value * Math_PI) / Fin 180)%js.

Definition toDegrees (value : number) : number :=
  ((value * Fin 180) / Math_PI)%js.

Definition clampLatitude (value : number) : number :=
  Math_min (Math_max value MIN_LATITUDE) MAX_LATITUDE.

Definition clampLongitude (value : number) : number :=
  Math_min (Math_max value MIN_LONGITUDE) MAX_LONGITUDE.

Definition isLatitudeInRange (value : number) : bool :=
  Number_isFinite value && (value >=? MIN_LATITUDE)%js && (value <=? MAX_LATITUDE)%js.

Definition isLongitudeInRange (value : number) : bool :=
  Number_isFinite value && (value >=? MIN_LONGITUDE)%js && (value <=? MAX_LONGITUDE)%js.

Definition calculateHaversineDistanceKm (p : DistanceParams) : number :=
  let origin := origin p in
  let destination := destination p in
  if negb (isLatitudeInRange (latitude origin))
     || negb (isLatitudeInRange (latitude destination))
     || negb (isLongitudeInRange (longitude origin))
     || negb (isLongitudeInRange (longitude destination))
  then NaN
  else
    let dLat := toRadians (latitude destination - latitude origin)%js in
    let dLon := toRadians (longitude destination - longitude origin)%js in
    let originLat := toRadians (latitude origin) in
    let destinationLat := toRadians (latitude destination) in
    let a :=
      (sqr (Math_sin (dLat / Fin 2))
       + sqr (Math_sin (dLon / Fin 2)) * Math_cos originLat * Math_cos destinationLat)%js in
    let c := (Fin 2 * Math_atan2 (Math_sqrt a) (Math_sqrt (Fin 1 - a)))%js in
    (EARTH_RADIUS_KM * c)%js.

Definition computeBoundingBox (p : BoundingBoxParams) : BoundingBox :=
  let center := center p in
  let radiusKm := radiusKm p in
  if negb (isLatitudeInRange (latitude center))
     || negb (isLongitudeInRange (longitude center))
  then
    {| minLatitude := MIN_LATITUDE;
       maxLatitude := MAX_LATITUDE;
       minLongitude := MIN_LONGITUDE;
       maxLongitude := MAX_LONGITUDE |}
  else
    let safeRadiusKm := Math_max radiusKm (Fin (1 / 10)) in
    let angularDistance := (safeRadiusKm / EARTH_RADIUS_KM)%js in
    let latRad := toRadians (latitude center) in
    let lonRad := toRadians (longitude center) in
    let minLatitude := clampLatitude (toDegrees (latRad - angularDistance)%js) in
    let maxLatitude := clampLatitude (toDegrees (latRad + angularDistance)%js) in
    if (minLatitude <=? MIN_LATITUDE)%js || (maxLatitude >=? MAX_LATITUDE)%js
    then
      {| minLatitude := minLatitude;
         maxLatitude := maxLatitude;
         minLongitude := MIN_LONGITUDE;
         maxLongitude := MAX_LONGITUDE |}
    else
      let deltaLongitude :=
        Math_asin (Math_sin angularDistance / Math_cos latRad)%js in
      let minLongitude := clampLongitude (toDegrees (lonRad - deltaLongitude)%js) in
      let maxLongitude := clampLongitude (toDegrees (lonRad + deltaLongitude)%js) in
      {| minLatitude := minLatitude;
         maxLatitude := maxLatitude;
         minLongitude := minLongitude;
         maxLongitude := maxLongitude |}.

(** ** Named intermediate quantities

    The local constants of the two functions, as functions of the
    parameters, so that statements can refer to them. *)

Definition safeRadiusKm (p : BoundingBoxParams) : number :=
  Math_max (radiusKm p) (Fin (1 / 10)).

Definition angularDistance (p : BoundingBoxParams) : number :=
  (safeRadiusKm p / EARTH_RADIUS_KM)%js.

Definition latRad (p : BoundingBoxParams) : number :=
  toRadians (latitude (center p)).

Definition lonRad (p : BoundingBoxParams) : number :=
  toRadians (longitude (center p)).

Definition boxMinLatitude (p : BoundingBoxParams) : number :=
  clampLatitude (toDegrees (latRad p - angularDistance p)%js).

Definition boxMaxLatitude (p : BoundingBoxParams) : number :=
  clampLatitude (toDegrees (latRad p + angularDistance p)%js).

(** The test of the pole-proximity rule. *)
Definition nearPole (p : BoundingBoxParams) : bool :=
  (boxMinLatitude p <=? MIN_LATITUDE)%js || (boxMaxLatitude p >=? MAX_LATITUDE)%js.

Definition deltaLongitude (p : BoundingBoxParams) : number :=
  Math_asin (Math_sin (angularDistance p) / Math_cos (latRad p))%js.

(** The haversine quantity [a] of [calculateHaversineDistanceKm]. *)
Definition haversineA (p : DistanceParams) : number :=
  let dLat := toRadians (latitude (destination p) - latitude (origin p))%js in
  let dLon := toRadians (longitude (destination p) - longitude (origin p))%js in
  (sqr (Math_sin (dLat / Fin 2))
   + sqr (Math_sin (dLon / Fin 2))
     * Math_cos (toRadians (latitude (origin p)))
     * Math_cos (toRadians (latitude (destination p))))%js.

(** ** Predicates of the claims *)

(** A valid latitude: finite and in [-90, 90]; a valid longitude: finite
    and in [-180, 180]. *)
Definition validLatitude (v : number) : Prop :=
  exists r, v = Fin r /\ -90 <= r <= 90.

Definition validLongitude (v : number) : Prop :=
  exists r, v = Fin r /\ -180 <= r <= 180.

Definition validCoordinate (c : GeoCoordinate) : Prop :=
  validLatitude (latitude c) /\ validLongitude (longitude c).

(** The maximal box: the whole globe. *)
Definition wholeGlobe : BoundingBox :=
  {| minLatitude := Fin (-90);
     maxLatitude := Fin 90;
     minLongitude := Fin (-180);
     maxLongitude := Fin 180 |}.

(** The box invariant: both pairs ordered, all four bounds canonical. *)
Definition wellFormedBox (b : BoundingBox) : bool :=
  (minLatitude b <=? maxLatitude b)%js
  && (minLongitude b <=? maxLongitude b)%js
  && (Fin (-90) <=? minLatitude b)%js && (minLatitude b <=? Fin 90)%js
  && (Fin (-90) <=? maxLatitude b)%js && (maxLatitude b <=? Fin 90)%js
  && (Fin (-180) <=? minLongitude b)%js && (minLongitude b <=? Fin 180)%js
  && (Fin (-180) <=? maxLongitude b)%js && (maxLongitude b <=? Fin 180)%js.

(** A point lies in a box: the four comparisons of the caller's filter. *)
Definition boxContains (b : BoundingBox) (c : GeoCoordinate) : bool :=
  (latitude c >=? minLatitude b)%js && (latitude c <=? maxLatitude b)%js
  && (longitude c >=? minLongitude b)%js && (longitude c <=? maxLongitude b)%js.

(** The longitude span of a box is the full [-180, 180]. *)
Definition fullLongitudeSpan (b : BoundingBox) : Prop :=
  minLongitude b = Fin (-180) /\ maxLongitude b = Fin 180.


(** A box lies within another: the four comparisons, bound by bound. *)
Definition boxWithin (inner outer : BoundingBox) : bool :=
  (minLatitude outer <=? minLatitude inner)%js
  && (maxLatitude inner <=? maxLatitude outer)%js
  && (minLongitude outer <=? minLongitude inner)%js
  && (maxLongitude inner <=? maxLongitude outer)%js.

(** The box whose four bounds are NaN. *)
Definition nanBox : BoundingBox :=
  {| minLatitude := NaN; maxLatitude := NaN; minLongitude := NaN; maxLongitude := NaN |}.

(** ** Real-valued counterparts and shorthands

    What the functions compute on finite values, as functions of reals,
    and constructors for parameters with finite coordinates. *)

(** The real clamp behind [clampLatitude] and [clampLongitude]. *)
Definition clampR (lo hi x : R) : R := Rmin (Rmax x lo) hi.

(** The radius the box is computed from, for a radius that is a real or
    [-Infinity]: the floor of 0.1 km applied. *)
Definition flooredRadius (r : number) : R :=
  match r with
  | Fin x => Rmax x (1 / 10)
  | _ => 1 / 10
  end.

(** The latitude half-width of the box in degrees, for a floored radius. *)
Definition halfWidthDeg (s : R) : R := s / 6371 * 180 / PI.

(** The longitude half-width of the box in degrees, at latitude [phi]. *)
Definition lonHalfWidthDeg (s phi : R) : R :=
  asin (sin (s / 6371) / cos (phi * PI / 180)) * 180 / PI.

(** Parameters with finite coordinates. *)
Definition mkCoordinate (phi lam : R) : GeoCoordinate :=
  {| latitude := Fin phi; longitude := Fin lam |}.

Definition mkParams (phi lam : R) (r : number) : BoundingBoxParams :=
  {| center := {| latitude := Fin phi; longitude := Fin lam |}; radiusKm := r |}.

Definition mkDistance (phi1 lam1 phi2 lam2 : R) : DistanceParams :=
  {| origin := mkCoordinate phi1 lam1; destination := mkCoordinate phi2 lam2 |}.

(** The haversine quantity [a] and the distance computed from it, on the
    reals, in the order of operations of the source. *)
Definition haversineR (phi1 lam1 phi2 lam2 : R) : R :=
  sin ((phi2 - phi1) * PI / 180 / 2) * sin ((phi2 - phi1) * PI / 180 / 2)
  + sin ((lam2 - lam1) * PI / 180 / 2) * sin ((lam2 - lam1) * PI / 180 / 2)
    * cos (phi1 * PI / 180) * cos (phi2 * PI / 180).

Definition distanceR (a : R) : R :=
  6371 * (2 * atan2 (sqrt a) (sqrt (1 - a))).

(** ** The module in double precision

    The same source over binary64 floats.  The operators [+ - * /], the
    comparisons and [Math.sqrt] are the IEEE-754 operations, rounding to
    nearest; [Math.max] and [Math.min] return NaN when an argument is NaN
    and order [-0] below [+0]; [Number.isFinite] excludes NaN and the
    infinities.  [a >= b] is written [b <=? a].  The literal [0.1] is the
    double [0x1.999999999999ap-4]. *)

Module IEEE.

Import Floats.
Local Open Scope list_scope.
Local Open Scope float_scope.

(** The functions of [Math] whose results ECMAScript does not fix to the
    last bit, and the operator [**]. *)
Record MathLibrary : Type := {
  Math_sin : float -> float;
  Math_cos : float -> float;
  Math_asin : float -> float;
  Math_atan2 : float -> float -> float;
  exponentiate : float -> float -> float
}.

Definition Number_NaN : float := nan.

Definition Math_PI : float := 0x1.921fb54442d18p+1.

Definition Math_sqrt (x : float) : float := sqrt x.

Definition Math_max (a b : float) : float :=
  if is_nan a || is_nan b then nan
  else if a <? b then b
  else if b <? a then a
  else match classify a with NZero => b | _ => a end.

Definition Math_min (a b : float) : float :=
  if is_nan a || is_nan b then nan
  else if b <? a then b
  else if a <? b then a
  else match classify a with PZero => b | _ => a end.

Definition Number_isFinite (x : float) : bool := is_finite x.

Record GeoCoordinate : Type := { latitude : float; longitude : float }.

Record BoundingBox : Type := {
  minLatitude : float;
  maxLatitude : float;
  minLongitude : float;
  maxLongitude : float
}.

Record BoundingBoxParams : Type := { center : GeoCoordinate; radiusKm : float }.

Record DistanceParams : Type := { origin : GeoCoordinate; destination : GeoCoordinate }.

Definition EARTH_RADIUS_KM : float := 6371.
Definition MIN_LATITUDE : float := -90.
Definition MAX_LATITUDE : float := 90.
Definition MIN_LONGITUDE : float := -180.
Definition MAX_LONGITUDE : float := 180.

Definition toRadians (value : float) : float := (value * Math_PI) / 180.
Definition toDegrees (value : float) : float := (value * 180) / Math_PI.

Definition clampLatitude (value : float) : float :=
  Math_min (Math_max value MIN_LATITUDE) MAX_LATITUDE.

Definition clampLongitude (value : float) : float :=
  Math_min (Math_max value MIN_LONGITUDE) MAX_LONGITUDE.

Definition isLatitudeInRange (value : float) : bool :=
  Number_isFinite value && (MIN_LATITUDE <=? value) && (value <=? MAX_LATITUDE).

Definition isLongitudeInRange (value : float) : bool :=
  Number_isFinite value && (MIN_LONGITUDE <=? value) && (value <=? MAX_LONGITUDE).

Definition calculateHaversineDistanceKm (M : MathLibrary) (p : DistanceParams) : float :=
  let origin := origin p in
  let destination := destination p in
  if negb (isLatitudeInRange (latitude origin))
     || negb (isLatitudeInRange (latitude destination))
     || negb (isLongitudeInRange (longitude origin))
     || negb (isLongitudeInRange (longitude destination))
  then Number_NaN
  else
    let dLat := toRadians (latitude destination - latitude origin) in
    let dLon := toRadians (longitude destination - longitude origin) in
    let originLat := toRadians (latitude origin) in
    let destinationLat := toRadians (latitude destination) in
    let a :=
      exponentiate M (Math_sin M (dLat / 2)) 2
      + exponentiate M (Math_sin M (dLon / 2)) 2
        * Math_cos M originLat * Math_cos M destinationLat in
    let c := 2 * Math_atan2 M (Math_sqrt a) (Math_sqrt (1 - a)) in
    EARTH_RADIUS_KM * c.

Definition computeBoundingBox (M : MathLibrary) (p : BoundingBoxParams) : BoundingBox :=
  let center := center p in
  let radiusKm := radiusKm p in
  if negb (isLatitudeInRange (latitude center))
     || negb (isLongitudeInRange (longitude center))
  then
    {| minLatitude := MIN_LATITUDE; maxLatitude := MAX_LATITUDE;
       minLongitude := MIN_LONGITUDE; maxLongitude := MAX_LONGITUDE |}
  else
    let safeRadiusKm := Math_max radiusKm 0x1.999999999999ap-4 in
    let angularDistance := safeRadiusKm / EARTH_RADIUS_KM in
    let latRad := toRadians (latitude center) in
    let lonRad := toRadians (longitude center) in
    let minLatitude := clampLatitude (toDegrees (latRad - angularDistance)) in
    let maxLatitude := clampLatitude (toDegrees (latRad + angularDistance)) in
    if (minLatitude <=? MIN_LATITUDE) || (MAX_LATITUDE <=? maxLatitude)
    then
      {| minLatitude := minLatitude; maxLatitude := maxLatitude;
         minLongitude := MIN_LONGITUDE; maxLongitude := MAX_LONGITUDE |}
    else
      let deltaLongitude :=
        Math_asin M (Math_sin M angularDistance / Math_cos M latRad) in
      let minLongitude := clampLongitude (toDegrees (lonRad - deltaLongitude)) in
      let maxLongitude := clampLongitude (toDegrees (lonRad + deltaLongitude)) in
      {| minLatitude := minLatitude; maxLatitude := maxLatitude;
         minLongitude := minLongitude; maxLongitude := maxLongitude |}.

(** The quantity [a] of [calculateHaversineDistanceKm], for coordinates
    that pass the range checks. *)
Definition haversineA (M : MathLibrary) (p : DistanceParams) : float :=
  exponentiate M
    (Math_sin M (toRadians (latitude (destination p) - latitude (origin p)) / 2)) 2
  + exponentiate M
      (Math_sin M (toRadians (longitude (destination p) - longitude (origin p)) / 2)) 2
    * Math_cos M (toRadians (latitude (origin p)))
    * Math_cos M (toRadians (latitude (destination p))).

(** The range checks of a coordinate, and of the two coordinates of a
    distance. *)
Definition validCoordinate (c : GeoCoordinate) : bool :=
  isLatitudeInRange (latitude c) && isLongitudeInRange (longitude c).

Definition validDistanceParams (p : DistanceParams) : bool :=
  validCoordinate (origin p) && validCoordinate (destination p).

(** A bound of a box is NaN or lies in the canonical range. *)
Definition canonicalOrNaN (lo hi b : float) : bool :=
  is_nan b || ((lo <=? b) && (b <=? hi)).

(** The same two points, origin and destination exchanged. *)
Definition swapped (p : DistanceParams) : DistanceParams :=
  {| origin := destination p; destination := origin p |}.

(** Two antipodal points: from (10.85, 0) to (-10.85, 180). *)
Definition antipodalPair : DistanceParams :=
  {| origin := {| latitude := 0x1.5b33333333333p+3; longitude := 0 |};
     destination := {| latitude := -0x1.5b33333333333p+3; longitude := 180 |} |}.

(** Two points close to antipodal: from (14, 0) to (-14.2, 179.9). *)
Definition nearAntipodalPair : DistanceParams :=
  {| origin := {| latitude := 14; longitude := 0 |};
     destination :=
       {| latitude := -0x1.c666666666666p+3; longitude := 0x1.67ccccccccccdp+7 |} |}.

(** *** The Math library at the arguments of the examples

    For the antipodal pair the code takes the sine of
    [-0.18936822384138477] (that is [toRadians (-21.7) / 2]) and of
    [1.5707963267948966], and the cosine of [0.18936822384138477] and of
    its opposite.  The sines and cosines rounded to the nearest double are
    [-0.18823845046369228], [1] and [0.9821233556773956]: the exact values
    lie within 0.02, 0.00 and 0.31 of a unit in the last place of them.
    The squares of the two sines are the rounded products
    [0.03543371423297193] and [1], and [Math.atan2] of [1] and NaN is NaN,
    as ECMAScript prescribes. *)
Definition roundsAntipodalPair (M : MathLibrary) : Prop :=
  Math_sin M (-0x1.83d37cc267209p-3) = -0x1.81832924baee1p-3
  /\ Math_sin M 0x1.921fb54442d18p+0 = 1
  /\ Math_cos M 0x1.83d37cc267209p-3 = 0x1.f6d8df5a8b5c8p-1
  /\ Math_cos M (-0x1.83d37cc267209p-3) = 0x1.f6d8df5a8b5c8p-1
  /\ exponentiate M (-0x1.81832924baee1p-3) 2 = 0x1.2245e279ce3a1p-5
  /\ exponentiate M 1 2 = 1
  /\ Math_atan2 M 1 nan = nan.

(** The sines, cosines and arctangents, rounded to nearest, at the
    arguments the examples reach.  Sine is odd and cosine is even, so the
    tables hold non-negative arguments. *)
Fixpoint lookup (table : list (float * float)) (x : float) : float :=
  match table with
  | nil => nan
  | (argument, value) :: rest => if argument =? x then value else lookup rest x
  end.

Fixpoint lookup2 (table : list (float * float * float)) (y x : float) : float :=
  match table with
  | nil => nan
  | (y', x', value) :: rest =>
      if (y' =? y) && (x' =? x) then value else lookup2 rest y x
  end.

Definition sinTable : list (float * float) :=
  (0, 0)
  :: (0x1.83d37cc267209p-3, 0x1.81832924baee1p-3)
  :: (0x1.f7fec7e1801e8p-3, 0x1.f2ec6d637c270p-3)
  :: (0x1.91e684623b62cp+0, 0x1.fffff3393210cp-1)
  :: (0x1.921fb54442d18p+0, 1)
  :: nil.

Definition cosTable : list (float * float) :=
  (0x1.83d37cc267209p-3, 0x1.f6d8df5a8b5c8p-1)
  :: (0x1.f46bb9c109324p-3, 0x1.f0ca99f79ba25p-1)
  :: (0x1.fb91d601f70abp-3, 0x1.f05b24121e27fp-1)
  :: nil.

Definition atan2Table : list (float * float * float) :=
  (0, 1, 0)
  :: (0x1.ffffc0e01a2c8p-1, 0x1.fc7c7180d7e6cp-10, 0x1.91a09622a930dp+0)
  :: (0x1.ffffc0e01a2c7p-1, 0x1.fc7c7180f81f6p-10, 0x1.91a09622a928cp+0)
  :: nil.

(** A Math library that is these tables, and NaN away from them. *)
Definition tabulatedMath : MathLibrary :=
  {| Math_sin x := if x <? 0 then - lookup sinTable (- x) else lookup sinTable x;
     Math_cos x := lookup cosTable (abs x);
     Math_asin x := nan;
     Math_atan2 y x := if is_nan y || is_nan x then nan else lookup2 atan2Table y x;
     exponentiate b e := if e =? 2 then b * b else nan |}.

(** The polynomial kernels of fdlibm for sine and cosine, for an argument
    of magnitude between [2^-27] and [0.3], where the library applies them
    to the argument itself.  They serve as a check of the tables. *)
Definition kernel_sin (x : float) : float :=
  let z := x * x in
  let v := z * x in
  let r :=
    0x1.111111110f8a6p-7
    + z * (-0x1.a01a019c161d5p-13
           + z * (0x1.71de357b1fe7dp-19
                  + z * (-0x1.ae5e68a2b9cebp-26 + z * 0x1.5d93a5acfd57cp-33))) in
  x + v * (-0x1.5555555555549p-3 + z * r).

Definition kernel_cos (x : float) : float :=
  let z := x * x in
  let r :=
    z * (0x1.555555555554cp-5
         + z * (-0x1.6c16c16c15177p-10
                + z * (0x1.a01a019cb1590p-16
                       + z * (-0x1.27e4f809c52adp-22
                              + z * (0x1.1ee9ebdb4b1c4p-29
                                     + z * -0x1.8fae9be8838d4p-37))))) in
  1 - (0x1p-1 * z - z * r).

End IEEE.

(** ** The nearby-search endpoint ([app/api/museums/nearby/route.ts])

    The pure parts of the endpoint that feeds the geo module: the parsing
    of the query, and the in-memory filter of the fallback path, over the
    exact-arithmetic numbers.  [Number(...)] of a string is a parameter,
    [StringToNumber]: nothing below depends on how a string is read.  The
    query string is the list of its name-value pairs, as [URLSearchParams]
    holds it. *)

Module Nearby.

Import String.
Local Open Scope list_scope.
Local Open Scope string_scope.

Definition DEFAULT_RADIUS_KM : number := Fin 25.
Definition DEFAULT_LIMIT : number := Fin 25.
Definition MAX_LIMIT : number := Fin 100.
Definition MAX_RADIUS_KM : number := Fin 100.

Record ParsedQuery : Type := {
  latitude : number;
  longitude : number;
  radiusKm : number;
  limit : number
}.

(** [{ error: string } | { data: ParsedQuery }]. *)
Inductive ParseResult : Type :=
| ParseError (error : string)
| ParseData (data : ParsedQuery).

(** [searchParams.get(name)]: the value of the first pair of that name, or
    null. *)
Fixpoint URLSearchParams_get (searchParams : list (string * string)) (name : string)
  : option string :=
  match searchParams with
  | nil => None
  | (key, value) :: rest =>
      if String.eqb key name then Some value else URLSearchParams_get rest name
  end.

(** [a ?? b]. *)
Definition nullish {A : Type} (a : option A) (b : A) : A :=
  match a with
  | Some v => v
  | None => b
  end.

Definition clamp (value minimum maximum : number) : number :=
  Math_min (Math_max value minimum) maximum.

(** A column of a fallback row that is read as a coordinate:
    [number | string | null]. *)
Inductive NumberOrStringOrNull : Type :=
| IsNumber (n : number)
| IsString (s : string)
| IsNull.

(** A fallback row: its two coordinate columns, and the other columns. *)
Module Fallback.
Record FallbackRow (Columns : Type) : Type := {
  latitude : NumberOrStringOrNull;
  longitude : NumberOrStringOrNull;
  columns : Columns
}.
Arguments latitude {Columns}.
Arguments longitude {Columns}.
Arguments columns {Columns}.
End Fallback.

Section WithStringToNumber.

Variable StringToNumber : string -> number.

(** [!value] holds for null and for the empty string. *)
Definition parseNumberParam (value : option string) : option number :=
  match value with
  | None => None
  | Some EmptyString => None
  | Some value =>
      let parsed := StringToNumber value in
      if negb (Number_isFinite parsed) then None else Some parsed
  end.

Definition parseQueryParams (searchParams : list (string * string)) : ParseResult :=
  let latitudeParam := parseNumberParam (URLSearchParams_get searchParams "lat") in
  let longitudeParam := parseNumberParam (URLSearchParams_get searchParams "lon") in
  match latitudeParam, longitudeParam with
  | Some latitudeParam, Some longitudeParam =>
      if (latitudeParam <? Fin (-90))%js || (latitudeParam >? Fin 90)%js
         || (longitudeParam <? Fin (-180))%js || (longitudeParam >? Fin 180)%js
      then ParseError "lat must be between -90 and 90; lon must be between -180 and 180."
      else
        let radiusParam :=
          parseNumberParam (URLSearchParams_get searchParams "distanceKm") in
        let limitParam := parseNumberParam (URLSearchParams_get searchParams "limit") in
        let radiusKm :=
          clamp (nullish radiusParam DEFAULT_RADIUS_KM) (Fin (1 / 10)) MAX_RADIUS_KM in
        let limit := clamp (nullish limitParam DEFAULT_LIMIT) (Fin 1) MAX_LIMIT in
        ParseData {| latitude := latitudeParam; longitude := longitudeParam;
                     radiusKm := radiusKm; limit := limit |}
  | _, _ => ParseError "lat and lon query parameters are required and must be numeric."
  end.

(** [Number(value)] for a column that holds a number, a string or null. *)
Definition Number (value : NumberOrStringOrNull) : number :=
  match value with
  | IsNumber n => n
  | IsString s => StringToNumber s
  | IsNull => Fin 0
  end.

(** The callback of [.map] over the fallback rows: null for a row that is
    dropped, otherwise the row and the [distance_km] it is handed to
    [normalizeMuseum] with. *)
Definition fallbackItem {Columns : Type} (latitude longitude radiusKm : number)
    (row : Fallback.FallbackRow Columns) : option (Fallback.FallbackRow Columns * number) :=
  let museumLatitude := Number (Fallback.latitude row) in
  let museumLongitude := Number (Fallback.longitude row) in
  if negb (Number_isFinite museumLatitude) || negb (Number_isFinite museumLongitude)
  then None
  else
    let distanceKm :=
      calculateHaversineDistanceKm
        (Build_DistanceParams
           (Build_GeoCoordinate latitude longitude)
           (Build_GeoCoordinate museumLatitude museumLongitude)) in
    if negb (Number_isFinite distanceKm) then None
    else if (distanceKm >? radiusKm)%js then None
    else Some (row, distanceKm).

(** [fallbackRows.map(callback).filter(Boolean)]: the rows kept, in their
    order, before they are sorted and cut to the limit. *)
Fixpoint fallbackItems {Columns : Type} (latitude longitude radiusKm : number)
    (fallbackRows : list (Fallback.FallbackRow Columns))
  : list (Fallback.FallbackRow Columns * number) :=
  match fallbackRows with
  | nil => nil
  | row :: rest =>
      match fallbackItem latitude longitude radiusKm row with
      | Some item => item :: fallbackItems latitude longitude radiusKm rest
      | None => fallbackItems latitude longitude radiusKm rest
      end
  end.

(** [sortByDistance], for museums whose field [distanceKm] is a string or
    undefined; an undefined or empty [distanceKm] is falsy. *)
Definition sortByDistance {Museum : Type} (distanceKm : Museum -> option string)
    (museumA museumB : Museum) : number :=
  let distanceA :=
    match distanceKm museumA with
    | None => PosInfinity
    | Some EmptyString => PosInfinity
    | Some text => StringToNumber text
    end in
  let distanceB :=
    match distanceKm museumB with
    | None => PosInfinity
    | Some EmptyString => PosInfinity
    | Some text => StringToNumber text
    end in
  (distanceA - distanceB)%js.

End WithStringToNumber.

(** A conversion for the examples: it reads decimal integers, and gives
    NaN for every other string. *)
Definition integerToNumber (s : string) : number :=
  match DecimalString.NilEmpty.int_of_string s with
  | Some d => Fin (IZR (Z.of_int d))
  | None => NaN
  end.

(** The radius and the limit [parseQueryParams] returns, for given
    parameters. *)
Definition parsedRadiusKm (StringToNumber : string -> number) (searchParams : list (string * string))
  : number :=
  clamp
    (nullish
       (parseNumberParam StringToNumber (URLSearchParams_get searchParams "distanceKm"))
       DEFAULT_RADIUS_KM)
    (Fin (1 / 10)) MAX_RADIUS_KM.

Definition parsedLimit (StringToNumber : string -> number) (searchParams : list (string * string))
  : number :=
  clamp
    (nullish
       (parseNumberParam StringToNumber (URLSearchParams_get searchParams "limit"))
       DEFAULT_LIMIT)
    (Fin 1) MAX_LIMIT.

(** The query [lat=37&lon=127&distanceKm=250], read with [integerToNumber]. *)
Definition exampleQuery : list (string * string) :=
  ("lat", "37") :: ("lon", "127") :: ("distanceKm", "250") :: nil.

(** A row at the center of the example query. *)
Definition exampleRow : Fallback.FallbackRow unit :=
  {| Fallback.latitude := IsString "37";
     Fallback.longitude := IsNumber (Fin 127);
     Fallback.columns := tt |}.

End Nearby.

(** ** Basic facts about numbers *)

Ltac rdec :=
  repeat match goal with
    | |- context [Req_dec_T ?a ?b] => destruct (Req_dec_T a b); try lra
    | |- context [Rle_dec ?a ?b] => destruct (Rle_dec a b); try lra
    | |- context [Rlt_dec ?a ?b] => destruct (Rlt_dec a b); try lra
    end.

Lemma Rleb_true x y : Rleb x y = true <-> x <= y.
Proof. unfold Rleb. destruct (Rle_dec x y); split; intros; auto; discriminate. Qed.

Lemma Rleb_false x y : Rleb x y = false <-> y < x.
Proof.
  unfold Rleb. destruct (Rle_dec x y); split; intros; try discriminate; auto; lra.
Qed.

Lemma Rltb_true x y : Rltb x y = true <-> x < y.
Proof. unfold Rltb. destruct (Rlt_dec x y); split; intros; auto; discriminate. Qed.

Lemma Rltb_false x y : Rltb x y = false <-> y <= x.
Proof.
  unfold Rltb. destruct (Rlt_dec x y); split; intros; try discriminate; auto; lra.
Qed.

Lemma le_Fin x y : (Fin x <=? Fin y)%js = true <-> x <= y.
Proof. apply Rleb_true. Qed.

Lemma le_Fin_false x y : (Fin x <=? Fin y)%js = false <-> y < x.
Proof. apply Rleb_false. Qed.

Lemma ge_Fin x y : (Fin x >=? Fin y)%js = true <-> y <= x.
Proof. apply Rleb_true. Qed.

Lemma le_NaN_l b : (NaN <=? b)%js = false.
Proof. reflexivity. Qed.

Lemma le_NaN_r a : (a <=? NaN)%js = false.
Proof. destruct a; reflexivity. Qed.

Lemma Math_max_Fin x y : Math_max (Fin x) (Fin y) = Fin (Rmax x y).
Proof.
  unfold Math_max, lt, Rltb, Rmax. rdec; f_equal; lra.
Qed.

Lemma Math_min_Fin x y : Math_min (Fin x) (Fin y) = Fin (Rmin x y).
Proof.
  unfold Math_min, lt, Rltb, Rmin. rdec; f_equal; lra.
Qed.

Lemma PI_bounds : 3 < PI <= 4.
Proof.
  split; [ | apply PI_4 ].
  generalize PI2_3_2; lra.
Qed.

Lemma toRadians_Fin x : toRadians (Fin x) = Fin (x * PI / 180).
Proof. unfold toRadians, Math_PI; simpl. rdec; reflexivity. Qed.

Lemma toDegrees_Fin x : toDegrees (Fin x) = Fin (x * 180 / PI).
Proof.
  unfold toDegrees, Math_PI; simpl. generalize PI_bounds; intros.
  rdec; reflexivity.
Qed.

Lemma toDegrees_PosInfinity : toDegrees PosInfinity = PosInfinity.
Proof.
  unfold toDegrees, Math_PI; simpl. unfold scaled_infinity.
  generalize PI_bounds; intros. rdec; simpl; rdec; reflexivity.
Qed.

Lemma toDegrees_NegInfinity : toDegrees NegInfinity = NegInfinity.
Proof.
  unfold toDegrees, Math_PI; simpl. unfold scaled_infinity.
  generalize PI_bounds; intros. rdec; simpl; rdec; reflexivity.
Qed.

Lemma Rmax_cases a b : (a <= b /\ Rmax a b = b) \/ (b <= a /\ Rmax a b = a).
Proof.
  destruct (Rle_dec a b); [ left | right ]; split; try lra.
  - now apply Rmax_right.
  - apply Rmax_left; lra.
Qed.

Lemma Rmin_cases a b : (a <= b /\ Rmin a b = a) \/ (b <= a /\ Rmin a b = b).
Proof.
  destruct (Rle_dec a b); [ left | right ]; split; try lra.
  - now apply Rmin_left.
  - apply Rmin_right; lra.
Qed.

Ltac clamp_cases :=
  unfold clampR;
  repeat match goal with
    | |- context [Rmax ?a ?b] =>
        let H := fresh "Hmax" in
        destruct (Rmax_cases a b) as [[? H] | [? H]]; rewrite H; clear H
    | |- context [Rmin ?a ?b] =>
        let H := fresh "Hmin" in
        destruct (Rmin_cases a b) as [[? H] | [? H]]; rewrite H; clear H
    end.

Lemma clampR_range lo hi x : lo <= hi -> lo <= clampR lo hi x <= hi.
Proof. intros. clamp_cases; lra. Qed.

Lemma clampR_id lo hi x : lo <= x <= hi -> clampR lo hi x = x.
Proof. intros [? ?]. clamp_cases; lra. Qed.

Lemma clampR_mono lo hi x y : x <= y -> clampR lo hi x <= clampR lo hi y.
Proof. intros. clamp_cases; lra. Qed.

Lemma clampR_hi lo hi x : lo <= hi -> hi <= x -> clampR lo hi x = hi.
Proof. intros. clamp_cases; lra. Qed.

Lemma clampR_lo lo hi x : lo <= hi -> x <= lo -> clampR lo hi x = lo.
Proof. intros. clamp_cases; lra. Qed.

Lemma clampR_lt_hi lo hi x : lo < hi -> clampR lo hi x < hi <-> x < hi.
Proof. intros. split; intros H0; revert H0; clamp_cases; lra. Qed.

Lemma clampR_gt_lo lo hi x : lo < hi -> lo < clampR lo hi x <-> lo < x.
Proof. intros. split; intros H0; revert H0; clamp_cases; lra. Qed.

Lemma clampLatitude_Fin x : clampLatitude (Fin x) = Fin (clampR (-90) 90 x).
Proof.
  unfold clampLatitude, MIN_LATITUDE, MAX_LATITUDE.
  now rewrite Math_max_Fin, Math_min_Fin.
Qed.

Lemma clampLongitude_Fin x : clampLongitude (Fin x) = Fin (clampR (-180) 180 x).
Proof.
  unfold clampLongitude, MIN_LONGITUDE, MAX_LONGITUDE.
  now rewrite Math_max_Fin, Math_min_Fin.
Qed.

Lemma clampLatitude_PosInfinity : clampLatitude PosInfinity = Fin 90.
Proof. reflexivity. Qed.

Lemma clampLatitude_NegInfinity : clampLatitude NegInfinity = Fin (-90).
Proof.
  unfold clampLatitude, MIN_LATITUDE, MAX_LATITUDE. simpl.
  unfold Math_min, lt, Rltb. rdec; reflexivity.
Qed.

Lemma clampLatitude_NaN : clampLatitude NaN = NaN.
Proof. reflexivity. Qed.

Lemma clampLongitude_NaN : clampLongitude NaN = NaN.
Proof. reflexivity. Qed.

(** The range checks, read as propositions. *)
Lemma isLatitudeInRange_true v : isLatitudeInRange v = true <-> validLatitude v.
Proof.
  unfold isLatitudeInRange, validLatitude, MIN_LATITUDE, MAX_LATITUDE, ge.
  destruct v as [ | | | x];
    try (simpl; split; [ discriminate | intros (r & E & _); discriminate ]).
  cbn [Number_isFinite andb]. rewrite andb_true_iff, !le_Fin. split.
  - intros [Hlo Hhi]. exists x. split; [ reflexivity | lra ].
  - intros (r & E & Hr). injection E as ->. lra.
Qed.

Lemma isLongitudeInRange_true v : isLongitudeInRange v = true <-> validLongitude v.
Proof.
  unfold isLongitudeInRange, validLongitude, MIN_LONGITUDE, MAX_LONGITUDE, ge.
  destruct v as [ | | | x];
    try (simpl; split; [ discriminate | intros (r & E & _); discriminate ]).
  cbn [Number_isFinite andb]. rewrite andb_true_iff, !le_Fin. split.
  - intros [Hlo Hhi]. exists x. split; [ reflexivity | lra ].
  - intros (r & E & Hr). injection E as ->. lra.
Qed.

Lemma isLatitudeInRange_false v : isLatitudeInRange v = false <-> ~ validLatitude v.
Proof.
  rewrite <- isLatitudeInRange_true. destruct (isLatitudeInRange v); split; intros; congruence.
Qed.

Lemma isLongitudeInRange_false v : isLongitudeInRange v = false <-> ~ validLongitude v.
Proof.
  rewrite <- isLongitudeInRange_true. destruct (isLongitudeInRange v); split; intros; congruence.
Qed.

(** ** The bounding box, case by case *)

Lemma flooredRadius_pos r : 1 / 10 <= flooredRadius r.
Proof.
  destruct r; simpl; try lra. apply Rmax_r.
Qed.

Lemma halfWidthDeg_pos s : 0 < s -> 0 < halfWidthDeg s.
Proof.
  intros. unfold halfWidthDeg. generalize PI_bounds; intros [? ?].
  apply Rdiv_lt_0_compat; lra.
Qed.

Lemma safeRadiusKm_floored phi lam r :
  r <> NaN -> r <> PosInfinity ->
  safeRadiusKm (mkParams phi lam r) = Fin (flooredRadius r).
Proof.
  intros Hn Hp. unfold safeRadiusKm, mkParams; simpl.
  destruct r as [ | | | x]; try congruence.
  - reflexivity.
  - apply Math_max_Fin.
Qed.

Lemma angularDistance_floored phi lam r :
  r <> NaN -> r <> PosInfinity ->
  angularDistance (mkParams phi lam r) = Fin (flooredRadius r / 6371).
Proof.
  intros. unfold angularDistance. rewrite safeRadiusKm_floored by assumption.
  unfold EARTH_RADIUS_KM; simpl. rdec; reflexivity.
Qed.

Lemma valid_center_checks phi lam :
  -90 <= phi <= 90 -> -180 <= lam <= 180 ->
  isLatitudeInRange (Fin phi) = true /\ isLongitudeInRange (Fin lam) = true.
Proof.
  intros. split.
  - apply isLatitudeInRange_true. now exists phi.
  - apply isLongitudeInRange_true. now exists lam.
Qed.

Lemma deg_of_shifted_rad x d : (x * PI / 180 + d) * 180 / PI = x + d * 180 / PI.
Proof. generalize PI_bounds; intros. field. lra. Qed.

Lemma deg_of_shifted_rad_minus x d : (x * PI / 180 - d) * 180 / PI = x - d * 180 / PI.
Proof. generalize PI_bounds; intros. field. lra. Qed.

Lemma boxMinLatitude_floored phi lam r :
  r <> NaN -> r <> PosInfinity ->
  boxMinLatitude (mkParams phi lam r)
  = Fin (clampR (-90) 90 (phi - halfWidthDeg (flooredRadius r))).
Proof.
  intros. unfold boxMinLatitude, latRad.
  rewrite angularDistance_floored by assumption.
  unfold mkParams; simpl center; simpl latitude.
  rewrite toRadians_Fin. simpl sub. rewrite toDegrees_Fin, clampLatitude_Fin.
  rewrite deg_of_shifted_rad_minus. reflexivity.
Qed.

Lemma boxMaxLatitude_floored phi lam r :
  r <> NaN -> r <> PosInfinity ->
  boxMaxLatitude (mkParams phi lam r)
  = Fin (clampR (-90) 90 (phi + halfWidthDeg (flooredRadius r))).
Proof.
  intros. unfold boxMaxLatitude, latRad.
  rewrite angularDistance_floored by assumption.
  unfold mkParams; simpl center; simpl latitude.
  rewrite toRadians_Fin. simpl add. rewrite toDegrees_Fin, clampLatitude_Fin.
  rewrite deg_of_shifted_rad. reflexivity.
Qed.

(** The function in terms of its named intermediate quantities. *)
Lemma computeBoundingBox_unfold p :
  computeBoundingBox p =
  if negb (isLatitudeInRange (latitude (center p)))
     || negb (isLongitudeInRange (longitude (center p)))
  then wholeGlobe
  else if (boxMinLatitude p <=? MIN_LATITUDE)%js || (boxMaxLatitude p >=? MAX_LATITUDE)%js
  then {| minLatitude := boxMinLatitude p;
          maxLatitude := boxMaxLatitude p;
          minLongitude := MIN_LONGITUDE;
          maxLongitude := MAX_LONGITUDE |}
  else {| minLatitude := boxMinLatitude p;
          maxLatitude := boxMaxLatitude p;
          minLongitude := clampLongitude (toDegrees (lonRad p - deltaLongitude p)%js);
          maxLongitude := clampLongitude (toDegrees (lonRad p + deltaLongitude p)%js) |}.
Proof. reflexivity. Qed.

Lemma calculateHaversineDistanceKm_unfold p :
  calculateHaversineDistanceKm p =
  if negb (isLatitudeInRange (latitude (origin p)))
     || negb (isLatitudeInRange (latitude (destination p)))
     || negb (isLongitudeInRange (longitude (origin p)))
     || negb (isLongitudeInRange (longitude (destination p)))
  then NaN
  else (EARTH_RADIUS_KM
        * (Fin 2 * Math_atan2 (Math_sqrt (haversineA p))
                              (Math_sqrt (Fin 1 - haversineA p))))%js.
Proof. reflexivity. Qed.

(** *** Trigonometry of the inner (non-pole) case *)

Lemma cos_pos_of_deg phi : -90 < phi < 90 -> 0 < cos (phi * PI / 180).
Proof.
  intros [? ?]. generalize PI_bounds; intros [? ?].
  apply cos_gt_0; nra.
Qed.

Lemma cos_nonneg_of_deg phi : -90 <= phi <= 90 -> 0 <= cos (phi * PI / 180).
Proof.
  intros [? ?]. generalize PI_bounds; intros [? ?].
  apply cos_ge_0; nra.
Qed.

(** Away from the poles the sine of the angular distance is below the
    cosine of the latitude: the argument of [Math.asin] is in (0, 1). *)
Lemma inner_ratio_rad x a :
  0 < a -> - (PI / 2) < x - a -> x + a < PI / 2 ->
  0 < sin a < cos x.
Proof.
  intros Ha Hlo Hhi. generalize PI_bounds; intros [? ?].
  split.
  - apply sin_gt_0; lra.
  - destruct (Rle_dec 0 x).
    + rewrite <- (sin_shift x). apply sin_increasing_1; lra.
    + rewrite <- (cos_neg x), <- (sin_shift (- x)). apply sin_increasing_1; lra.
Qed.

Lemma inner_ratio phi a :
  0 < a -> - (PI / 2) < phi * PI / 180 - a -> phi * PI / 180 + a < PI / 2 ->
  0 < sin a < cos (phi * PI / 180).
Proof. apply inner_ratio_rad. Qed.


Lemma inner_rad phi s :
  0 < s ->
  -90 < phi - halfWidthDeg s -> phi + halfWidthDeg s < 90 ->
  - (PI / 2) < phi * PI / 180 - s / 6371 /\ phi * PI / 180 + s / 6371 < PI / 2.
Proof.
  intros Hs Hlo Hhi. generalize PI_bounds; intros [? ?].
  unfold halfWidthDeg in *.
  assert (E : s / 6371 = (s / 6371 * 180 / PI) * PI / 180) by (field; lra).
  rewrite E. set (d := s / 6371 * 180 / PI) in *. nra.
Qed.

Lemma inner_quotient phi s :
  0 < s ->
  -90 < phi - halfWidthDeg s -> phi + halfWidthDeg s < 90 ->
  0 < cos (phi * PI / 180) /\
  0 < sin (s / 6371) / cos (phi * PI / 180) < 1.
Proof.
  intros Hs Hlo Hhi.
  destruct (inner_rad phi s Hs Hlo Hhi) as [Hl Hh].
  assert (Ha : 0 < s / 6371) by (apply Rdiv_lt_0_compat; lra).
  destruct (inner_ratio phi _ Ha Hl Hh) as [Hsin Hcos].
  assert (Hc : 0 < cos (phi * PI / 180)) by lra.
  split; [ exact Hc | split ].
  - now apply Rdiv_lt_0_compat.
  - apply (Rmult_lt_reg_r (cos (phi * PI / 180))); [ exact Hc | ].
    unfold Rdiv. rewrite Rmult_assoc, Rinv_l by lra. lra.
Qed.

Lemma asin_lt x y : -1 <= x -> x < y -> y <= 1 -> asin x < asin y.
Proof.
  intros Hx Hxy Hy.
  destruct (Rlt_dec (asin x) (asin y)) as [ | Hn ]; [ assumption | exfalso ].
  assert (Hle : asin y <= asin x) by lra.
  generalize (asin_bound x), (asin_bound y); intros [? ?] [? ?].
  assert (Hs : sin (asin y) <= sin (asin x)) by (apply sin_incr_1; lra).
  rewrite !sin_asin in Hs by lra. lra.
Qed.

Lemma asin_le x y : -1 <= x -> x <= y -> y <= 1 -> asin x <= asin y.
Proof.
  intros Hx Hxy Hy. destruct (Req_dec x y) as [-> | Hne]; [ lra | ].
  left. apply asin_lt; lra.
Qed.

Lemma lonHalfWidthDeg_bounds phi s :
  0 < s ->
  -90 < phi - halfWidthDeg s -> phi + halfWidthDeg s < 90 ->
  0 < lonHalfWidthDeg s phi < 90.
Proof.
  intros Hs Hlo Hhi. generalize PI_bounds; intros [? ?].
  destruct (inner_quotient phi _ Hs Hlo Hhi) as [Hc [Hq0 Hq1]].
  unfold lonHalfWidthDeg.
  set (q := sin (s / 6371) / cos (phi * PI / 180)) in *.
  assert (Hb : - (PI / 2) < asin q < PI / 2) by (apply asin_bound_lt; lra).
  assert (Hp : 0 < asin q).
  { rewrite <- asin_0. apply asin_lt; lra. }
  split.
  - apply Rdiv_lt_0_compat; lra.
  - apply (Rmult_lt_reg_r PI); [ lra | ].
    unfold Rdiv. rewrite Rmult_assoc, Rinv_l by lra. lra.
Qed.

Lemma deltaLongitude_inner phi lam r :
  r <> NaN -> r <> PosInfinity ->
  -90 < phi - halfWidthDeg (flooredRadius r) ->
  phi + halfWidthDeg (flooredRadius r) < 90 ->
  deltaLongitude (mkParams phi lam r)
  = Fin (asin (sin (flooredRadius r / 6371) / cos (phi * PI / 180))).
Proof.
  intros Hn Hp Hlo Hhi.
  assert (Hs : 0 < flooredRadius r) by (generalize (flooredRadius_pos r); lra).
  destruct (inner_quotient phi _ Hs Hlo Hhi) as [Hc [Hq0 Hq1]].
  unfold deltaLongitude, latRad. rewrite angularDistance_floored by assumption.
  unfold mkParams; simpl center; simpl latitude. rewrite toRadians_Fin.
  simpl Math_sin; simpl Math_cos. simpl div.
  destruct (Req_dec_T (cos (phi * PI / 180)) 0); [ lra | ].
  simpl. rdec; reflexivity.
Qed.

(** *** The four shapes of the result for a valid center *)

Lemma box_of_invalid_center p :
  ~ validLatitude (latitude (center p)) \/ ~ validLongitude (longitude (center p)) ->
  computeBoundingBox p = wholeGlobe.
Proof.
  intros H. rewrite computeBoundingBox_unfold.
  destruct H as [H | H].
  - apply isLatitudeInRange_false in H. now rewrite H.
  - apply isLongitudeInRange_false in H. rewrite H. now rewrite orb_true_r.
Qed.

Ltac valid_center phi lam Hphi Hlam :=
  let E1 := fresh "E" in
  let E2 := fresh "E" in
  destruct (valid_center_checks phi lam Hphi Hlam) as [E1 E2];
  rewrite computeBoundingBox_unfold;
  change (latitude (center (mkParams phi lam ?r))) with (Fin phi);
  change (longitude (center (mkParams phi lam ?r))) with (Fin lam);
  rewrite E1, E2; cbn [negb orb].

Lemma box_of_nan_radius phi lam :
  -90 <= phi <= 90 -> -180 <= lam <= 180 ->
  computeBoundingBox (mkParams phi lam NaN) = nanBox.
Proof.
  intros Hphi Hlam. valid_center phi lam Hphi Hlam.
  unfold boxMinLatitude, boxMaxLatitude, deltaLongitude, lonRad, latRad,
    angularDistance, safeRadiusKm, mkParams.
  cbn [center latitude longitude radiusKm Math_max].
  rewrite !toRadians_Fin. reflexivity.
Qed.

Lemma box_of_infinite_radius phi lam :
  -90 <= phi <= 90 -> -180 <= lam <= 180 ->
  computeBoundingBox (mkParams phi lam PosInfinity) = wholeGlobe.
Proof.
  intros Hphi Hlam. valid_center phi lam Hphi Hlam.
  assert (Ea : angularDistance (mkParams phi lam PosInfinity) = PosInfinity).
  { unfold angularDistance, safeRadiusKm, mkParams, EARTH_RADIUS_KM; simpl.
    rdec; reflexivity. }
  unfold boxMinLatitude, boxMaxLatitude, latRad. rewrite Ea.
  cbn [center latitude mkParams]. rewrite toRadians_Fin.
  cbn [sub add]. rewrite toDegrees_NegInfinity, toDegrees_PosInfinity.
  rewrite clampLatitude_NegInfinity, clampLatitude_PosInfinity.
  unfold MIN_LATITUDE. replace (Fin (-90) <=? Fin (-90))%js with true.
  - reflexivity.
  - symmetry. apply le_Fin. lra.
Qed.

Lemma box_of_pole_case phi lam r :
  -90 <= phi <= 90 -> -180 <= lam <= 180 ->
  r <> NaN -> r <> PosInfinity ->
  phi - halfWidthDeg (flooredRadius r) <= -90
  \/ 90 <= phi + halfWidthDeg (flooredRadius r) ->
  computeBoundingBox (mkParams phi lam r)
  = {| minLatitude := Fin (clampR (-90) 90 (phi - halfWidthDeg (flooredRadius r)));
       maxLatitude := Fin (clampR (-90) 90 (phi + halfWidthDeg (flooredRadius r)));
       minLongitude := Fin (-180);
       maxLongitude := Fin 180 |}.
Proof.
  intros Hphi Hlam Hn Hp Hpole. valid_center phi lam Hphi Hlam.
  rewrite boxMinLatitude_floored, boxMaxLatitude_floored by assumption.
  unfold MIN_LATITUDE, MAX_LATITUDE, ge.
  set (lo := clampR (-90) 90 (phi - halfWidthDeg (flooredRadius r))).
  set (hi := clampR (-90) 90 (phi + halfWidthDeg (flooredRadius r))).
  assert (Ec : ((Fin lo <=? Fin (-90)) || (Fin 90 <=? Fin hi))%js = true).
  { apply orb_true_iff. rewrite !le_Fin. destruct Hpole as [H | H].
    - left. unfold lo. rewrite clampR_lo; lra.
    - right. unfold hi. rewrite clampR_hi; lra. }
  rewrite Ec. reflexivity.
Qed.

Lemma box_of_inner_case phi lam r :
  -90 <= phi <= 90 -> -180 <= lam <= 180 ->
  r <> NaN -> r <> PosInfinity ->
  -90 < phi - halfWidthDeg (flooredRadius r) ->
  phi + halfWidthDeg (flooredRadius r) < 90 ->
  computeBoundingBox (mkParams phi lam r)
  = {| minLatitude := Fin (phi - halfWidthDeg (flooredRadius r));
       maxLatitude := Fin (phi + halfWidthDeg (flooredRadius r));
       minLongitude :=
         Fin (clampR (-180) 180 (lam - lonHalfWidthDeg (flooredRadius r) phi));
       maxLongitude :=
         Fin (clampR (-180) 180 (lam + lonHalfWidthDeg (flooredRadius r) phi)) |}.
Proof.
  intros Hphi Hlam Hn Hp Hlo Hhi. valid_center phi lam Hphi Hlam.
  assert (Hs : 0 < flooredRadius r) by (generalize (flooredRadius_pos r); lra).
  generalize (halfWidthDeg_pos _ Hs); intros HD.
  rewrite boxMinLatitude_floored, boxMaxLatitude_floored by assumption.
  unfold MIN_LATITUDE, MAX_LATITUDE, ge.
  rewrite !clampR_id by lra.
  assert (Ec : ((Fin (phi - halfWidthDeg (flooredRadius r)) <=? Fin (-90))
               || (Fin 90 <=? Fin (phi + halfWidthDeg (flooredRadius r))))%js = false).
  { apply orb_false_iff. rewrite !le_Fin_false. lra. }
  rewrite Ec.
  rewrite deltaLongitude_inner by assumption.
  unfold lonRad. cbn [center longitude mkParams]. rewrite toRadians_Fin.
  cbn [sub add]. rewrite !toDegrees_Fin, !clampLongitude_Fin.
  rewrite deg_of_shifted_rad, deg_of_shifted_rad_minus.
  reflexivity.
Qed.

(** A valid center is [mkParams] of its two reals. *)
Lemma valid_center_params p :
  validCoordinate (center p) ->
  exists phi lam,
    -90 <= phi <= 90 /\ -180 <= lam <= 180 /\ p = mkParams phi lam (radiusKm p).
Proof.
  intros [(phi & E1 & H1) (lam & E2 & H2)].
  exists phi, lam. repeat split; try lra.
  destruct p as [[la lo] r]; simpl in *. subst. reflexivity.
Qed.

Lemma wellFormedBox_Fin a b c d :
  a <= b -> c <= d -> -90 <= a -> b <= 90 -> -180 <= c -> d <= 180 ->
  wellFormedBox {| minLatitude := Fin a; maxLatitude := Fin b;
                   minLongitude := Fin c; maxLongitude := Fin d |} = true.
Proof.
  intros. unfold wellFormedBox; cbn [minLatitude maxLatitude minLongitude maxLongitude].
  repeat (apply andb_true_iff; split); apply le_Fin; lra.
Qed.

Lemma boxContains_Fin a b c d phi lam :
  a <= phi <= b -> c <= lam <= d ->
  boxContains {| minLatitude := Fin a; maxLatitude := Fin b;
                 minLongitude := Fin c; maxLongitude := Fin d |}
              {| latitude := Fin phi; longitude := Fin lam |} = true.
Proof.
  intros [? ?] [? ?]. unfold boxContains, ge;
    cbn [minLatitude maxLatitude minLongitude maxLongitude latitude longitude].
  repeat (apply andb_true_iff; split); apply le_Fin; lra.
Qed.

Lemma wellFormedBox_wholeGlobe : wellFormedBox wholeGlobe = true.
Proof. apply wellFormedBox_Fin; lra. Qed.

(** The example of the repository's pole test: latitude 89.5, radius 100 km. *)
Lemma halfWidthDeg_100 : 1 / 2 < halfWidthDeg 100.
Proof.
  unfold halfWidthDeg. generalize PI_bounds; intros [? ?].
  apply (Rmult_lt_reg_r PI); [ lra | ].
  unfold Rdiv at 2. rewrite Rmult_assoc, Rinv_l by lra. lra.
Qed.

Lemma flooredRadius_Fin x : 1 / 10 <= x -> flooredRadius (Fin x) = x.
Proof. intros. simpl. apply Rmax_left. lra. Qed.

Lemma pole_example_max_latitude :
  boxMaxLatitude (mkParams (895 / 10) 45 (Fin 100)) = Fin 90.
Proof.
  rewrite boxMaxLatitude_floored by discriminate.
  rewrite flooredRadius_Fin by lra.
  rewrite clampR_hi; [ reflexivity | lra | ].
  generalize halfWidthDeg_100. lra.
Qed.

(** ** Claims about [computeBoundingBox] *)

(** C5 -- Invalid-center fallback: when the center's latitude is not a
    finite value of [-90, 90] or its longitude not a finite value of
    [-180, 180], [computeBoundingBox] returns, whatever the radius, exactly
    the whole-globe box (-90, 90, -180, 180).  The function is total: it
    returns a box for every input. *)
Theorem invalid_center_fallback (p : BoundingBoxParams) :
  ~ validLatitude (latitude (center p)) \/ ~ validLongitude (longitude (center p)) ->
  computeBoundingBox p
  = {| minLatitude := Fin (-90); maxLatitude := Fin 90;
       minLongitude := Fin (-180); maxLongitude := Fin 180 |}.
Proof. apply box_of_invalid_center. Qed.

Lemma invalid_center_fallback_witness :
  (~ validLatitude (Fin 120) \/ ~ validLongitude (Fin 0))
  /\ computeBoundingBox (mkParams 120 0 (Fin 25))
     = {| minLatitude := Fin (-90); maxLatitude := Fin 90;
          minLongitude := Fin (-180); maxLongitude := Fin 180 |}.
Proof.
  assert (H : ~ validLatitude (Fin 120) \/ ~ validLongitude (Fin 0)).
  { left. intros (r & E & Hr). injection E as <-. lra. }
  split; [ exact H | ].
  apply (invalid_center_fallback (mkParams 120 0 (Fin 25))). exact H.
Defined.

(** C6 -- Pole-proximity rule: for a valid center and any radius, when the
    clamped minimum latitude equals -90 or the clamped maximum latitude
    equals 90, the box returned is the two clamped latitude extremes paired
    with the full longitude span -180, 180.  (The witness is the center at
    latitude 89.5 with radius 100 km: its maximum latitude is exactly 90.) *)
Theorem pole_proximity_rule (p : BoundingBoxParams) :
  validCoordinate (center p) ->
  boxMinLatitude p = Fin (-90) \/ boxMaxLatitude p = Fin 90 ->
  computeBoundingBox p
  = {| minLatitude := boxMinLatitude p;
       maxLatitude := boxMaxLatitude p;
       minLongitude := Fin (-180);
       maxLongitude := Fin 180 |}.
Proof.
  intros [Hla Hlo] Hpole. rewrite computeBoundingBox_unfold.
  apply isLatitudeInRange_true in Hla. apply isLongitudeInRange_true in Hlo.
  rewrite Hla, Hlo. cbn [negb orb].
  assert (E : ((boxMinLatitude p <=? MIN_LATITUDE) || (boxMaxLatitude p >=? MAX_LATITUDE))%js
              = true).
  { apply orb_true_iff. unfold MIN_LATITUDE, MAX_LATITUDE, ge.
    destruct Hpole as [-> | ->]; [ left | right ]; apply le_Fin; lra. }
  rewrite E. reflexivity.
Qed.

Lemma pole_proximity_rule_witness :
  validCoordinate (center (mkParams (895 / 10) 45 (Fin 100)))
  /\ boxMaxLatitude (mkParams (895 / 10) 45 (Fin 100)) = Fin 90
  /\ computeBoundingBox (mkParams (895 / 10) 45 (Fin 100))
     = {| minLatitude := boxMinLatitude (mkParams (895 / 10) 45 (Fin 100));
          maxLatitude := boxMaxLatitude (mkParams (895 / 10) 45 (Fin 100));
          minLongitude := Fin (-180);
          maxLongitude := Fin 180 |}.
Proof.
  assert (V : validCoordinate (center (mkParams (895 / 10) 45 (Fin 100)))).
  { split; simpl; [ exists (895 / 10) | exists 45 ]; split; try reflexivity; lra. }
  split; [ exact V | split; [ exact pole_example_max_latitude | ] ].
  apply (pole_proximity_rule (mkParams (895 / 10) 45 (Fin 100)) V).
  right. exact pole_example_max_latitude.
Defined.

Lemma clampR_around lo hi x d :
  lo <= x <= hi -> 0 <= d ->
  clampR lo hi (x - d) <= x <= clampR lo hi (x + d).
Proof.
  intros Hx Hd. rewrite <- (clampR_id lo hi x Hx) at 2 3.
  split; apply clampR_mono; lra.
Qed.

(** Every radius other than NaN falls in one of three cases. *)
Lemma radius_cases phi (r : number) :
  r <> NaN ->
  r = PosInfinity
  \/ (r <> PosInfinity
      /\ (phi - halfWidthDeg (flooredRadius r) <= -90
          \/ 90 <= phi + halfWidthDeg (flooredRadius r)))
  \/ (r <> PosInfinity
      /\ -90 < phi - halfWidthDeg (flooredRadius r)
      /\ phi + halfWidthDeg (flooredRadius r) < 90).
Proof.
  intros Hn. destruct r as [ | | | x]; try congruence.
  - right.
    destruct (Rle_dec (phi - halfWidthDeg (flooredRadius NegInfinity)) (-90));
      [ left; split; [ discriminate | now left ] | ].
    destruct (Rle_dec 90 (phi + halfWidthDeg (flooredRadius NegInfinity)));
      [ left; split; [ discriminate | now right ] | ].
    right. split; [ discriminate | lra ].
  - now left.
  - right.
    destruct (Rle_dec (phi - halfWidthDeg (flooredRadius (Fin x))) (-90));
      [ left; split; [ discriminate | now left ] | ].
    destruct (Rle_dec 90 (phi + halfWidthDeg (flooredRadius (Fin x))));
      [ left; split; [ discriminate | now right ] | ].
    right. split; [ discriminate | lra ].
Qed.

Lemma center_validity_dec p :
  validCoordinate (center p)
  \/ (~ validLatitude (latitude (center p)) \/ ~ validLongitude (longitude (center p))).
Proof.
  unfold validCoordinate.
  destruct (isLatitudeInRange (latitude (center p))) eqn:E1.
  - destruct (isLongitudeInRange (longitude (center p))) eqn:E2.
    + left. split; [ now apply isLatitudeInRange_true | now apply isLongitudeInRange_true ].
    + right; right. now apply isLongitudeInRange_false.
  - right; left. now apply isLatitudeInRange_false.
Qed.

(** C3 (as amended) -- Box well-formedness: for every center and every
    radius other than NaN, the box returned by [computeBoundingBox] has
    minLatitude <= maxLatitude and minLongitude <= maxLongitude, and its
    four bounds lie in the canonical ranges [-90, 90] and [-180, 180]. *)
Theorem box_well_formed (p : BoundingBoxParams) :
  radiusKm p <> NaN ->
  wellFormedBox (computeBoundingBox p) = true.
Proof.
  intros Hn. destruct (center_validity_dec p) as [Hv | Hi].
  2: { rewrite (box_of_invalid_center p Hi). apply wellFormedBox_wholeGlobe. }
  destruct (valid_center_params p Hv) as (phi & lam & Hphi & Hlam & ->).
  cbn [radiusKm mkParams] in *. set (r := radiusKm p) in *.
  destruct (radius_cases phi r Hn) as [-> | [[Hp Hpole] | (Hp & Hlo & Hhi)]].
  - rewrite box_of_infinite_radius by assumption. apply wellFormedBox_wholeGlobe.
  - rewrite box_of_pole_case by assumption.
    assert (Hs : 0 < flooredRadius r) by (generalize (flooredRadius_pos r); lra).
    generalize (halfWidthDeg_pos _ Hs); intros HD.
    generalize (clampR_range (-90) 90 (phi - halfWidthDeg (flooredRadius r))).
    generalize (clampR_range (-90) 90 (phi + halfWidthDeg (flooredRadius r))).
    generalize (clampR_mono (-90) 90 (phi - halfWidthDeg (flooredRadius r))
                  (phi + halfWidthDeg (flooredRadius r))).
    intros. apply wellFormedBox_Fin; lra.
  - rewrite box_of_inner_case by assumption.
    assert (Hs : 0 < flooredRadius r) by (generalize (flooredRadius_pos r); lra).
    generalize (halfWidthDeg_pos _ Hs); intros HD.
    destruct (lonHalfWidthDeg_bounds phi _ Hs Hlo Hhi) as [HL _].
    generalize (clampR_range (-180) 180 (lam - lonHalfWidthDeg (flooredRadius r) phi)).
    generalize (clampR_range (-180) 180 (lam + lonHalfWidthDeg (flooredRadius r) phi)).
    generalize (clampR_mono (-180) 180 (lam - lonHalfWidthDeg (flooredRadius r) phi)
                  (lam + lonHalfWidthDeg (flooredRadius r) phi)).
    intros. apply wellFormedBox_Fin; lra.
Qed.

Lemma box_well_formed_witness :
  Fin 25 <> NaN
  /\ wellFormedBox
       (computeBoundingBox (mkParams (375665 / 10000) (126978 / 1000) (Fin 25))) = true.
Proof.
  assert (H : Fin 25 <> NaN) by discriminate.
  split; [ exact H | ].
  exact (box_well_formed (mkParams (375665 / 10000) (126978 / 1000) (Fin 25)) H).
Defined.

(** C3 as stated fails: with a valid center and the radius NaN every bound
    of the returned box is NaN, and no comparison with NaN holds. *)
Lemma box_not_well_formed_for_nan_radius :
  computeBoundingBox (mkParams 0 0 NaN) = nanBox
  /\ wellFormedBox (computeBoundingBox (mkParams 0 0 NaN)) = false.
Proof.
  assert (E : computeBoundingBox (mkParams 0 0 NaN) = nanBox)
    by (apply box_of_nan_radius; lra).
  split; [ exact E | rewrite E; reflexivity ].
Qed.

(** C10 -- Center containment: for a valid center and a radius that is a
    real or infinite (not NaN), the returned box contains the center:
    minLatitude <= latitude <= maxLatitude and
    minLongitude <= longitude <= maxLongitude.  Zero and negative radii are
    covered: the radius is floored to 0.1 km. *)
Theorem center_in_box (p : BoundingBoxParams) :
  validCoordinate (center p) ->
  radiusKm p <> NaN ->
  boxContains (computeBoundingBox p) (center p) = true.
Proof.
  intros Hv Hn.
  destruct (valid_center_params p Hv) as (phi & lam & Hphi & Hlam & ->).
  cbn [radiusKm center mkParams] in *. set (r := radiusKm p) in *.
  destruct (radius_cases phi r Hn) as [-> | [[Hp Hpole] | (Hp & Hlo & Hhi)]].
  - rewrite box_of_infinite_radius by assumption. apply boxContains_Fin; lra.
  - rewrite box_of_pole_case by assumption.
    assert (Hs : 0 < flooredRadius r) by (generalize (flooredRadius_pos r); lra).
    generalize (halfWidthDeg_pos _ Hs); intros HD.
    apply boxContains_Fin; [ apply clampR_around; lra | lra ].
  - rewrite box_of_inner_case by assumption.
    assert (Hs : 0 < flooredRadius r) by (generalize (flooredRadius_pos r); lra).
    generalize (halfWidthDeg_pos _ Hs); intros HD.
    destruct (lonHalfWidthDeg_bounds phi _ Hs Hlo Hhi) as [HL _].
    apply boxContains_Fin; [ lra | apply clampR_around; lra ].
Qed.

Lemma center_in_box_witness :
  validCoordinate (center (mkParams 0 0 (Fin 0)))
  /\ Fin 0 <> NaN
  /\ boxContains (computeBoundingBox (mkParams 0 0 (Fin 0)))
                 (center (mkParams 0 0 (Fin 0))) = true.
Proof.
  assert (V : validCoordinate (center (mkParams 0 0 (Fin 0)))).
  { split; simpl; exists 0; split; try reflexivity; lra. }
  assert (H : Fin 0 <> NaN) by discriminate.
  split; [ exact V | split; [ exact H | ] ].
  exact (center_in_box (mkParams 0 0 (Fin 0)) V H).
Defined.

(** ** The haversine distance on valid coordinates *)

Lemma div_Fin x y : y <> 0 -> (Fin x / Fin y)%js = Fin (x / y).
Proof. intros. simpl. rdec; reflexivity. Qed.

Lemma haversineA_Fin phi1 lam1 phi2 lam2 :
  haversineA (mkDistance phi1 lam1 phi2 lam2) = Fin (haversineR phi1 lam1 phi2 lam2).
Proof.
  unfold haversineA, mkDistance, mkCoordinate.
  cbn [origin destination latitude longitude sub].
  rewrite !toRadians_Fin, !div_Fin by lra. reflexivity.
Qed.

(** On latitudes of [-90, 90] the quantity [a] lies in [0, 1]. *)
Lemma haversineR_range phi1 lam1 phi2 lam2 :
  -90 <= phi1 <= 90 -> -90 <= phi2 <= 90 ->
  0 <= haversineR phi1 lam1 phi2 lam2 <= 1.
Proof.
  intros H1 H2. unfold haversineR.
  generalize (cos_nonneg_of_deg phi1 H1), (cos_nonneg_of_deg phi2 H2); intros C1 C2.
  set (x1 := phi1 * PI / 180) in *. set (x2 := phi2 * PI / 180) in *.
  set (u := (phi2 - phi1) * PI / 180 / 2).
  set (v := (lam2 - lam1) * PI / 180 / 2).
  assert (Eu : 2 * u = x2 - x1) by (unfold u, x1, x2; field).
  assert (Hcu : cos (x2 - x1) = 1 - 2 * sin u * sin u)
    by (rewrite <- Eu; apply cos_2a_sin).
  rewrite cos_minus in Hcu.
  generalize (cos_plus x2 x1); intros Hp.
  generalize (COS_bound (x2 + x1)); intros [Hb1 Hb2].
  generalize (SIN_bound v); intros [Hv1 Hv2].
  assert (Hvv : 0 <= sin v * sin v <= 1) by nra.
  assert (Hcc : 0 <= cos x1 * cos x2) by nra.
  split.
  - assert (0 <= sin u * sin u) by nra. nra.
  - assert (sin v * sin v * cos x1 * cos x2 <= cos x1 * cos x2) by nra.
    nra.
Qed.

Lemma atan2_nonneg y x : 0 <= y -> 0 <= x -> 0 <= atan2 y x.
Proof.
  intros Hy Hx. unfold atan2. generalize PI_bounds; intros [? ?].
  destruct (Rlt_dec 0 x).
  - rewrite <- atan_0. destruct (Req_dec y 0) as [-> | Hne].
    + unfold Rdiv. rewrite Rmult_0_l. lra.
    + left. apply atan_increasing. apply Rdiv_lt_0_compat; lra.
  - rdec; lra.
Qed.

Lemma distanceR_nonneg a : 0 <= a <= 1 -> 0 <= distanceR a.
Proof.
  intros [? ?]. unfold distanceR.
  generalize (atan2_nonneg (sqrt a) (sqrt (1 - a)) (sqrt_pos _) (sqrt_pos _)).
  lra.
Qed.

Lemma valid_coordinate_params c :
  validCoordinate c ->
  exists phi lam, -90 <= phi <= 90 /\ -180 <= lam <= 180 /\ c = mkCoordinate phi lam.
Proof.
  intros [(phi & E1 & H1) (lam & E2 & H2)].
  exists phi, lam. repeat split; try lra.
  destruct c as [la lo]; simpl in *. subst. reflexivity.
Qed.

Lemma distance_of_valid phi1 lam1 phi2 lam2 :
  -90 <= phi1 <= 90 -> -180 <= lam1 <= 180 ->
  -90 <= phi2 <= 90 -> -180 <= lam2 <= 180 ->
  calculateHaversineDistanceKm (mkDistance phi1 lam1 phi2 lam2)
  = Fin (distanceR (haversineR phi1 lam1 phi2 lam2)).
Proof.
  intros Hp1 Hl1 Hp2 Hl2.
  destruct (valid_center_checks phi1 lam1 Hp1 Hl1) as [Ea Eb].
  destruct (valid_center_checks phi2 lam2 Hp2 Hl2) as [Ec Ed].
  rewrite calculateHaversineDistanceKm_unfold, haversineA_Fin.
  unfold mkDistance, mkCoordinate; cbn [origin destination latitude longitude].
  rewrite Ea, Eb, Ec, Ed. cbn [negb orb].
  destruct (haversineR_range phi1 lam1 phi2 lam2 Hp1 Hp2) as [Ha0 Ha1].
  set (a := haversineR phi1 lam1 phi2 lam2) in *.
  cbn [sub]. unfold Math_sqrt.
  destruct (Rle_dec 0 a); [ | lra ].
  destruct (Rle_dec 0 (1 - a)); [ | lra ].
  reflexivity.
Qed.

Lemma distance_of_invalid p :
  ~ (validCoordinate (origin p) /\ validCoordinate (destination p)) ->
  calculateHaversineDistanceKm p = NaN.
Proof.
  intros H. rewrite calculateHaversineDistanceKm_unfold.
  destruct (isLatitudeInRange (latitude (origin p))) eqn:E1; [ | reflexivity ].
  destruct (isLatitudeInRange (latitude (destination p))) eqn:E2; [ | reflexivity ].
  destruct (isLongitudeInRange (longitude (origin p))) eqn:E3; [ | reflexivity ].
  destruct (isLongitudeInRange (longitude (destination p))) eqn:E4; [ | reflexivity ].
  exfalso. apply H. unfold validCoordinate.
  rewrite <- !isLatitudeInRange_true, <- !isLongitudeInRange_true. auto.
Qed.

Lemma haversineR_sym phi1 lam1 phi2 lam2 :
  haversineR phi1 lam1 phi2 lam2 = haversineR phi2 lam2 phi1 lam1.
Proof.
  unfold haversineR.
  replace ((phi1 - phi2) * PI / 180 / 2) with (- ((phi2 - phi1) * PI / 180 / 2)) by field.
  replace ((lam1 - lam2) * PI / 180 / 2) with (- ((lam2 - lam1) * PI / 180 / 2)) by field.
  rewrite !sin_neg. ring.
Qed.

Lemma haversineR_same phi lam : haversineR phi lam phi lam = 0.
Proof.
  unfold haversineR.
  replace ((phi - phi) * PI / 180 / 2) with 0 by field.
  replace ((lam - lam) * PI / 180 / 2) with 0 by field.
  rewrite sin_0. ring.
Qed.

Lemma distanceR_0 : distanceR 0 = 0.
Proof.
  unfold distanceR. rewrite Rminus_0_r, sqrt_0, sqrt_1.
  unfold atan2. destruct (Rlt_dec 0 1); [ | lra ].
  unfold Rdiv. rewrite Rmult_0_l, atan_0. ring.
Qed.

(** ** Claims about [calculateHaversineDistanceKm] *)

(** The valid domain in exact arithmetic: for valid coordinates A and B the
    intermediate quantity [a] is a real of [0, 1] (so the square roots and
    atan2 are well defined) and the result is a finite, non-negative real:
    neither NaN nor infinite.  The formula is sound; what rounding does to
    it is the subject of the last part of the file. *)
Theorem distance_finite_nonnegative (p : DistanceParams) :
  validCoordinate (origin p) -> validCoordinate (destination p) ->
  (exists a, haversineA p = Fin a /\ 0 <= a <= 1)
  /\ (exists d, calculateHaversineDistanceKm p = Fin d /\ 0 <= d).
Proof.
  intros Ho Hd.
  destruct (valid_coordinate_params _ Ho) as (phi1 & lam1 & Hp1 & Hl1 & Eo).
  destruct (valid_coordinate_params _ Hd) as (phi2 & lam2 & Hp2 & Hl2 & Ed).
  assert (Ep : p = mkDistance phi1 lam1 phi2 lam2).
  { destruct p as [o d]; simpl in *. subst. reflexivity. }
  rewrite Ep. generalize (haversineR_range phi1 lam1 phi2 lam2 Hp1 Hp2); intros Ha.
  split.
  - exists (haversineR phi1 lam1 phi2 lam2). split; [ apply haversineA_Fin | exact Ha ].
  - exists (distanceR (haversineR phi1 lam1 phi2 lam2)). split.
    + now apply distance_of_valid.
    + now apply distanceR_nonneg.
Qed.

Lemma distance_finite_nonnegative_witness :
  validCoordinate (mkCoordinate (515074 / 10000) (- (1278 / 10000)))
  /\ validCoordinate (mkCoordinate (407128 / 10000) (- (74006 / 1000)))
  /\ (exists a,
        haversineA (mkDistance (515074 / 10000) (- (1278 / 10000))
                               (407128 / 10000) (- (74006 / 1000))) = Fin a
        /\ 0 <= a <= 1)
  /\ (exists d,
        calculateHaversineDistanceKm
          (mkDistance (515074 / 10000) (- (1278 / 10000))
                      (407128 / 10000) (- (74006 / 1000))) = Fin d
        /\ 0 <= d).
Proof.
  assert (Va : validCoordinate (mkCoordinate (515074 / 10000) (- (1278 / 10000)))).
  { split; simpl; eexists; (split; [ reflexivity | lra ]). }
  assert (Vb : validCoordinate (mkCoordinate (407128 / 10000) (- (74006 / 1000)))).
  { split; simpl; eexists; (split; [ reflexivity | lra ]). }
  split; [ exact Va | split; [ exact Vb | ] ].
  exact (distance_finite_nonnegative
           (mkDistance (515074 / 10000) (- (1278 / 10000))
                       (407128 / 10000) (- (74006 / 1000))) Va Vb).
Defined.

(** The NaN sentinel in exact arithmetic: [calculateHaversineDistanceKm]
    returns NaN if and only if one of the four input numbers is not a finite
    value of its canonical range (latitude [-90, 90], longitude
    [-180, 180]).  The function is total: it returns a number for every
    input.  In double precision only the direction from an invalid input to
    NaN remains (last part of the file). *)
Theorem distance_nan_iff_invalid (p : DistanceParams) :
  calculateHaversineDistanceKm p = NaN
  <-> (~ validLatitude (latitude (origin p))
       \/ ~ validLongitude (longitude (origin p))
       \/ ~ validLatitude (latitude (destination p))
       \/ ~ validLongitude (longitude (destination p))).
Proof.
  split.
  - intros HN.
    destruct (isLatitudeInRange (latitude (origin p))) eqn:E1;
      [ | left; now apply isLatitudeInRange_false ].
    destruct (isLongitudeInRange (longitude (origin p))) eqn:E2;
      [ | right; left; now apply isLongitudeInRange_false ].
    destruct (isLatitudeInRange (latitude (destination p))) eqn:E3;
      [ | right; right; left; now apply isLatitudeInRange_false ].
    destruct (isLongitudeInRange (longitude (destination p))) eqn:E4;
      [ | right; right; right; now apply isLongitudeInRange_false ].
    exfalso.
    apply isLatitudeInRange_true in E1, E3. apply isLongitudeInRange_true in E2, E4.
    destruct (valid_coordinate_params (origin p) (conj E1 E2))
      as (phi1 & lam1 & Hp1 & Hl1 & Eo).
    destruct (valid_coordinate_params (destination p) (conj E3 E4))
      as (phi2 & lam2 & Hp2 & Hl2 & Ed).
    assert (Ep : p = mkDistance phi1 lam1 phi2 lam2).
    { destruct p as [o d]; simpl in *. subst. reflexivity. }
    rewrite Ep, distance_of_valid in HN by assumption. discriminate.
  - intros H. apply distance_of_invalid. intros [[H1 H2] [H3 H4]].
    destruct H as [H | [H | [H | H]]]; contradiction.
Qed.

(** C7 -- Symmetry, of the exact values: for valid coordinates A and B the
    distance from A to B equals the distance from B to A when the formula
    is evaluated in exact arithmetic (the quantity [a] is the same for both
    orders).  The doubles computed for the two orders can differ, as the
    last part of the file shows. *)
Theorem distance_symmetric (a b : GeoCoordinate) :
  validCoordinate a -> validCoordinate b ->
  calculateHaversineDistanceKm {| origin := a; destination := b |}
  = calculateHaversineDistanceKm {| origin := b; destination := a |}.
Proof.
  intros Ha Hb.
  destruct (valid_coordinate_params _ Ha) as (phi1 & lam1 & Hp1 & Hl1 & ->).
  destruct (valid_coordinate_params _ Hb) as (phi2 & lam2 & Hp2 & Hl2 & ->).
  change (calculateHaversineDistanceKm (mkDistance phi1 lam1 phi2 lam2)
          = calculateHaversineDistanceKm (mkDistance phi2 lam2 phi1 lam1)).
  rewrite !distance_of_valid by assumption.
  now rewrite haversineR_sym.
Qed.

Lemma distance_symmetric_witness :
  validCoordinate (mkCoordinate (515074 / 10000) (- (1278 / 10000)))
  /\ validCoordinate (mkCoordinate (407128 / 10000) (- (74006 / 1000)))
  /\ calculateHaversineDistanceKm
       {| origin := mkCoordinate (515074 / 10000) (- (1278 / 10000));
          destination := mkCoordinate (407128 / 10000) (- (74006 / 1000)) |}
     = calculateHaversineDistanceKm
         {| origin := mkCoordinate (407128 / 10000) (- (74006 / 1000));
            destination := mkCoordinate (515074 / 10000) (- (1278 / 10000)) |}.
Proof.
  assert (Va : validCoordinate (mkCoordinate (515074 / 10000) (- (1278 / 10000)))).
  { split; simpl; eexists; (split; [ reflexivity | lra ]). }
  assert (Vb : validCoordinate (mkCoordinate (407128 / 10000) (- (74006 / 1000)))).
  { split; simpl; eexists; (split; [ reflexivity | lra ]). }
  split; [ exact Va | split; [ exact Vb | ] ].
  exact (distance_symmetric _ _ Va Vb).
Defined.

(** C8 -- Identity: for a valid coordinate P the distance from P to P is
    exactly 0. *)
Theorem distance_identity (c : GeoCoordinate) :
  validCoordinate c ->
  calculateHaversineDistanceKm {| origin := c; destination := c |} = Fin 0.
Proof.
  intros Hc.
  destruct (valid_coordinate_params _ Hc) as (phi & lam & Hp & Hl & ->).
  change (calculateHaversineDistanceKm (mkDistance phi lam phi lam) = Fin 0).
  rewrite distance_of_valid by assumption.
  now rewrite haversineR_same, distanceR_0.
Qed.

Lemma distance_identity_witness :
  validCoordinate (mkCoordinate (375665 / 10000) (126978 / 1000))
  /\ calculateHaversineDistanceKm
       {| origin := mkCoordinate (375665 / 10000) (126978 / 1000);
          destination := mkCoordinate (375665 / 10000) (126978 / 1000) |} = Fin 0.
Proof.
  assert (V : validCoordinate (mkCoordinate (375665 / 10000) (126978 / 1000))).
  { split; simpl; eexists; (split; [ reflexivity | lra ]). }
  split; [ exact V | ].
  exact (distance_identity _ V).
Defined.

(** *** The distance as an arcsine *)

Lemma atan2_sqrt a :
  0 <= a <= 1 -> atan2 (sqrt a) (sqrt (1 - a)) = asin (sqrt a).
Proof.
  intros [Ha0 Ha1]. unfold atan2.
  destruct (Req_dec a 1) as [-> | Hne].
  - replace (1 - 1) with 0 by ring. rewrite sqrt_0, sqrt_1, asin_1.
    generalize PI_bounds; intros [? ?]. rdec; lra.
  - assert (Hlt : a < 1) by lra.
    assert (Hx : 0 < sqrt (1 - a)) by (apply sqrt_lt_R0; lra).
    destruct (Rlt_dec 0 (sqrt (1 - a))); [ | lra ].
    assert (Hs : sqrt a < 1).
    { rewrite <- sqrt_1. apply sqrt_lt_1; lra. }
    generalize (sqrt_pos a); intros Hp.
    rewrite asin_atan by lra.
    unfold Rsqr. rewrite sqrt_sqrt by lra. reflexivity.
Qed.

Lemma distanceR_asin a :
  0 <= a <= 1 -> distanceR a = 6371 * (2 * asin (sqrt a)).
Proof.
  intros Ha. unfold distanceR. now rewrite atan2_sqrt.
Qed.

(** *** The antimeridian example: center (0, 179.9), radius 100 km *)

Lemma halfWidthDeg_100_lt_1 : halfWidthDeg 100 < 1.
Proof.
  unfold halfWidthDeg. generalize PI_bounds; intros [? ?].
  apply (Rmult_lt_reg_r PI); [ lra | ].
  unfold Rdiv at 1. rewrite Rmult_assoc, Rinv_l by lra. lra.
Qed.

Lemma lonHalfWidthDeg_equator s :
  0 <= s / 6371 <= 1 -> lonHalfWidthDeg s 0 = halfWidthDeg s.
Proof.
  intros [? ?]. unfold lonHalfWidthDeg, halfWidthDeg.
  generalize PI_bounds; intros [? ?].
  replace (0 * PI / 180) with 0 by field.
  rewrite cos_0, Rdiv_1_r, asin_sin by lra. reflexivity.
Qed.

Lemma antimeridian_example_box :
  computeBoundingBox (mkParams 0 (1799 / 10) (Fin 100))
  = {| minLatitude := Fin (0 - halfWidthDeg 100);
       maxLatitude := Fin (0 + halfWidthDeg 100);
       minLongitude := Fin (1799 / 10 - halfWidthDeg 100);
       maxLongitude := Fin 180 |}.
Proof.
  generalize halfWidthDeg_100, halfWidthDeg_100_lt_1; intros Hlo Hhi.
  rewrite box_of_inner_case; try discriminate;
    rewrite ?flooredRadius_Fin by lra; try lra.
  rewrite lonHalfWidthDeg_equator by lra.
  rewrite clampR_id by lra. rewrite clampR_hi by lra. reflexivity.
Qed.

Lemma antimeridian_example_crossing :
  (toDegrees (lonRad (mkParams 0 (1799 / 10) (Fin 100))
              + deltaLongitude (mkParams 0 (1799 / 10) (Fin 100)))
   >? Fin 180)%js = true.
Proof.
  generalize halfWidthDeg_100, halfWidthDeg_100_lt_1; intros Hlo Hhi.
  rewrite deltaLongitude_inner; try discriminate;
    rewrite ?flooredRadius_Fin by lra; try lra.
  unfold lonRad. cbn [center longitude mkParams]. rewrite toRadians_Fin.
  cbn [add]. rewrite toDegrees_Fin, deg_of_shifted_rad.
  change (asin (sin (100 / 6371) / cos (0 * PI / 180)) * 180 / PI)
    with (lonHalfWidthDeg 100 0).
  rewrite lonHalfWidthDeg_equator by lra.
  unfold gt, lt. apply Rltb_true. lra.
Qed.



(** *** Clamping at the antimeridian *)

Lemma clampLongitude_above x :
  (x >? Fin 180)%js = true -> clampLongitude x = Fin 180.
Proof.
  unfold gt. destruct x as [ | | | y]; simpl; try discriminate.
  - intros _. reflexivity.
  - intros H. apply Rltb_true in H. rewrite clampLongitude_Fin, clampR_hi by lra.
    reflexivity.
Qed.

Lemma clampLongitude_below x :
  (x <? Fin (-180))%js = true -> clampLongitude x = Fin (-180).
Proof.
  destruct x as [ | | | y]; simpl; try discriminate.
  - intros _. unfold clampLongitude, MIN_LONGITUDE, MAX_LONGITUDE. simpl.
    unfold Math_min, lt, Rltb. rdec; reflexivity.
  - intros H. apply Rltb_true in H. rewrite clampLongitude_Fin, clampR_lo by lra.
    reflexivity.
Qed.

Lemma nearPole_false_inner phi lam r :
  r <> NaN ->
  nearPole (mkParams phi lam r) = false ->
  r <> PosInfinity
  /\ -90 < phi - halfWidthDeg (flooredRadius r)
  /\ phi + halfWidthDeg (flooredRadius r) < 90.
Proof.
  intros Hn Hf. unfold nearPole in Hf. apply orb_false_iff in Hf. destruct Hf as [Hf1 Hf2].
  assert (Hp : r <> PosInfinity).
  { intros ->. unfold boxMaxLatitude, latRad, angularDistance, safeRadiusKm in Hf2.
    cbn [center latitude radiusKm mkParams Math_max lt] in Hf2.
    rewrite toRadians_Fin in Hf2.
    replace (PosInfinity / EARTH_RADIUS_KM)%js with PosInfinity in Hf2
      by (unfold EARTH_RADIUS_KM; simpl; rdec; reflexivity).
    cbn [add] in Hf2. rewrite toDegrees_PosInfinity, clampLatitude_PosInfinity in Hf2.
    unfold MAX_LATITUDE, ge in Hf2. apply le_Fin_false in Hf2. lra. }
  split; [ exact Hp | ].
  rewrite boxMinLatitude_floored in Hf1 by assumption.
  rewrite boxMaxLatitude_floored in Hf2 by assumption.
  unfold MIN_LATITUDE in Hf1. unfold MAX_LATITUDE, ge in Hf2.
  apply le_Fin_false in Hf1, Hf2.
  split.
  - apply (clampR_gt_lo (-90) 90); lra.
  - apply (clampR_lt_hi (-90) 90); lra.
Qed.

Lemma deltaLongitude_nan_radius phi lam :
  deltaLongitude (mkParams phi lam NaN) = NaN.
Proof. reflexivity. Qed.

Lemma computeBoundingBox_longitudes p :
  validCoordinate (center p) ->
  (nearPole p = true
   /\ minLongitude (computeBoundingBox p) = Fin (-180)
   /\ maxLongitude (computeBoundingBox p) = Fin 180)
  \/ (nearPole p = false
      /\ minLongitude (computeBoundingBox p)
         = clampLongitude (toDegrees (lonRad p - deltaLongitude p)%js)
      /\ maxLongitude (computeBoundingBox p)
         = clampLongitude (toDegrees (lonRad p + deltaLongitude p)%js)).
Proof.
  intros [Hla Hlo]. rewrite computeBoundingBox_unfold.
  apply isLatitudeInRange_true in Hla. apply isLongitudeInRange_true in Hlo.
  rewrite Hla, Hlo. cbn [negb orb]. fold (nearPole p).
  destruct (nearPole p); [ left | right ]; repeat split.
Qed.

(** C2 (as amended) -- Antimeridian clamping: for a valid center, when the
    center longitude plus the computed longitude half-width exceeds 180 the
    box has maxLongitude = 180, and when the center longitude minus the
    half-width is below -180 it has minLongitude = -180.  The opposite
    bound is not widened: unless the pole-proximity rule applies, it stays
    on the center's side of the prime meridian (minLongitude > 0 in the
    first case, maxLongitude < 0 in the second). *)
Theorem antimeridian_clamps_crossing_side (p : BoundingBoxParams) :
  validCoordinate (center p) ->
  ((toDegrees (lonRad p + deltaLongitude p) >? Fin 180)%js = true ->
   maxLongitude (computeBoundingBox p) = Fin 180
   /\ (nearPole p = true
       \/ (Fin 0 <? minLongitude (computeBoundingBox p))%js = true))
  /\ ((toDegrees (lonRad p - deltaLongitude p) <? Fin (-180))%js = true ->
      minLongitude (computeBoundingBox p) = Fin (-180)
      /\ (nearPole p = true
          \/ (maxLongitude (computeBoundingBox p) <? Fin 0)%js = true)).
Proof.
  intros Hv.
  destruct (computeBoundingBox_longitudes p Hv)
    as [(HP & Emin & Emax) | (HP & Emin & Emax)].
  { rewrite Emin, Emax. split; intros _; split; auto. }
  rewrite Emin, Emax.
  destruct (valid_center_params p Hv) as (phi & lam & Hphi & Hlam & Ep).
  set (r := radiusKm p) in *.
  assert (Hr : r = NaN \/ r <> NaN) by (destruct r; auto; right; discriminate).
  destruct Hr as [Hr | Hr].
  { rewrite Ep, Hr, deltaLongitude_nan_radius. unfold lonRad.
    cbn [center longitude mkParams]. rewrite toRadians_Fin.
    split; intros H; discriminate H. }
  rewrite Ep in HP. destruct (nearPole_false_inner phi lam r Hr HP) as (Hp & Hlo & Hhi).
  assert (Hs : 0 < flooredRadius r) by (generalize (flooredRadius_pos r); lra).
  destruct (lonHalfWidthDeg_bounds phi _ Hs Hlo Hhi) as [HL0 HL90].
  assert (Eplus : toDegrees (lonRad p + deltaLongitude p)
                  = Fin (lam + lonHalfWidthDeg (flooredRadius r) phi)).
  { rewrite Ep, deltaLongitude_inner by assumption. unfold lonRad.
    cbn [center longitude mkParams]. rewrite toRadians_Fin. cbn [add].
    now rewrite toDegrees_Fin, deg_of_shifted_rad. }
  assert (Eminus : toDegrees (lonRad p - deltaLongitude p)
                   = Fin (lam - lonHalfWidthDeg (flooredRadius r) phi)).
  { rewrite Ep, deltaLongitude_inner by assumption. unfold lonRad.
    cbn [center longitude mkParams]. rewrite toRadians_Fin. cbn [sub].
    now rewrite toDegrees_Fin, deg_of_shifted_rad_minus. }
  rewrite Eplus, Eminus, !clampLongitude_Fin.
  split; intros H.
  - unfold gt in H. apply Rltb_true in H. split.
    + rewrite clampR_hi by lra. reflexivity.
    + right. apply Rltb_true. rewrite clampR_id by lra. lra.
  - apply Rltb_true in H. split.
    + rewrite clampR_lo by lra. reflexivity.
    + right. apply Rltb_true. rewrite clampR_id by lra. lra.
Qed.

Lemma antimeridian_clamps_crossing_side_witness :
  validCoordinate (center (mkParams 0 (1799 / 10) (Fin 100)))
  /\ (toDegrees (lonRad (mkParams 0 (1799 / 10) (Fin 100))
                 + deltaLongitude (mkParams 0 (1799 / 10) (Fin 100)))
      >? Fin 180)%js = true
  /\ maxLongitude (computeBoundingBox (mkParams 0 (1799 / 10) (Fin 100))) = Fin 180
  /\ (nearPole (mkParams 0 (1799 / 10) (Fin 100)) = true
      \/ (Fin 0 <? minLongitude (computeBoundingBox (mkParams 0 (1799 / 10) (Fin 100))))%js
         = true).
Proof.
  assert (V : validCoordinate (center (mkParams 0 (1799 / 10) (Fin 100)))).
  { split; simpl; eexists; (split; [ reflexivity | lra ]). }
  split; [ exact V | split; [ exact antimeridian_example_crossing | ] ].
  exact (proj1 (antimeridian_clamps_crossing_side (mkParams 0 (1799 / 10) (Fin 100)) V)
           antimeridian_example_crossing).
Defined.

(** C2 as stated fails: the circle of radius 100 km around (0, 179.9)
    crosses the antimeridian, and the box returned spans the longitudes
    from 179.9 - 0.9 (above 178) to 180, not -180 to 180. *)
Lemma antimeridian_span_not_full :
  validCoordinate (center (mkParams 0 (1799 / 10) (Fin 100)))
  /\ (toDegrees (lonRad (mkParams 0 (1799 / 10) (Fin 100))
                 + deltaLongitude (mkParams 0 (1799 / 10) (Fin 100)))
      >? Fin 180)%js = true
  /\ computeBoundingBox (mkParams 0 (1799 / 10) (Fin 100))
     = {| minLatitude := Fin (0 - halfWidthDeg 100);
          maxLatitude := Fin (0 + halfWidthDeg 100);
          minLongitude := Fin (1799 / 10 - halfWidthDeg 100);
          maxLongitude := Fin 180 |}
  /\ 178 < 1799 / 10 - halfWidthDeg 100
  /\ ~ fullLongitudeSpan (computeBoundingBox (mkParams 0 (1799 / 10) (Fin 100))).
Proof.
  generalize halfWidthDeg_100_lt_1; intros Hlt.
  split; [ | split; [ | split; [ | split ] ] ].
  - split; simpl; eexists; (split; [ reflexivity | lra ]).
  - exact antimeridian_example_crossing.
  - exact antimeridian_example_box.
  - lra.
  - rewrite antimeridian_example_box. intros [H _]. simpl in H.
    injection H as H. lra.
Qed.

(** ** Containment of the search circle

    The points within the radius of the center, under the haversine
    distance, against the rectangle returned for that center and radius. *)




Lemma haversine_cosine x1 x2 v :
  1 - 2 * (sin ((x2 - x1) / 2) * sin ((x2 - x1) / 2)
           + sin v * sin v * cos x1 * cos x2)
  = sin x1 * sin x2 + cos x1 * cos x2 * cos (2 * v).
Proof.
  rewrite (cos_2a_sin v).
  assert (E : cos (x2 - x1) = 1 - 2 * sin ((x2 - x1) / 2) * sin ((x2 - x1) / 2)).
  { rewrite <- cos_2a_sin. f_equal. field. }
  rewrite cos_minus in E. lra.
Qed.















(** * Further properties of the distance

    What [calculateHaversineDistanceKm] computes, in exact arithmetic. *)

Lemma cos_double_asin_sqrt a : 0 <= a <= 1 -> cos (2 * asin (sqrt a)) = 1 - 2 * a.
Proof.
  intros [Ha0 Ha1].
  assert (Hq : -1 <= sqrt a <= 1).
  { split; [ generalize (sqrt_pos a); lra | rewrite <- sqrt_1; now apply sqrt_le_1_alt ]. }
  rewrite cos_2a_sin, sin_asin by exact Hq.
  rewrite Rmult_assoc, sqrt_sqrt by exact Ha0. reflexivity.
Qed.

Lemma distanceR_bounds a : 0 <= a <= 1 -> 0 <= distanceR a <= 6371 * PI.
Proof.
  intros Ha. rewrite distanceR_asin by exact Ha.
  assert (Hq : 0 <= sqrt a <= 1).
  { split; [ apply sqrt_pos | rewrite <- sqrt_1; apply sqrt_le_1_alt; lra ]. }
  generalize (asin_bound (sqrt a)); intros [_ Hb].
  assert (H0 : 0 <= asin (sqrt a)).
  { rewrite <- asin_0. apply asin_le; lra. }
  lra.
Qed.

(** X1 -- The distance is the great-circle distance on the sphere of radius
    6371 km: for valid coordinates the result [d] is a real between 0 and
    half the circumference, [6371 * PI], and the central angle [d / 6371]
    satisfies the spherical law of cosines,
    [cos (d / 6371) = sin lat1 * sin lat2 + cos lat1 * cos lat2 * cos (lon2 - lon1)]
    (angles in radians).  An angle of [0, PI] is determined by its cosine,
    so this fixes [d]. *)
Theorem distance_is_great_circle phi1 lam1 phi2 lam2 :
  -90 <= phi1 <= 90 -> -180 <= lam1 <= 180 ->
  -90 <= phi2 <= 90 -> -180 <= lam2 <= 180 ->
  exists d,
    calculateHaversineDistanceKm (mkDistance phi1 lam1 phi2 lam2) = Fin d
    /\ 0 <= d <= 6371 * PI
    /\ cos (d / 6371)
       = sin (phi1 * PI / 180) * sin (phi2 * PI / 180)
         + cos (phi1 * PI / 180) * cos (phi2 * PI / 180) * cos ((lam2 - lam1) * PI / 180).
Proof.
  intros Hp1 Hl1 Hp2 Hl2.
  generalize (haversineR_range phi1 lam1 phi2 lam2 Hp1 Hp2); intros Ha.
  exists (distanceR (haversineR phi1 lam1 phi2 lam2)). split; [ | split ].
  - now apply distance_of_valid.
  - now apply distanceR_bounds.
  - rewrite distanceR_asin by exact Ha.
    replace (6371 * (2 * asin (sqrt (haversineR phi1 lam1 phi2 lam2))) / 6371)
      with (2 * asin (sqrt (haversineR phi1 lam1 phi2 lam2))) by (field; lra).
    rewrite cos_double_asin_sqrt by exact Ha.
    unfold haversineR.
    replace ((phi2 - phi1) * PI / 180 / 2)
      with ((phi2 * PI / 180 - phi1 * PI / 180) / 2) by field.
    replace ((lam2 - lam1) * PI / 180) with (2 * ((lam2 - lam1) * PI / 180 / 2)) by field.
    rewrite <- haversine_cosine.
    replace (2 * ((lam2 - lam1) * PI / 180 / 2) / 2)
      with ((lam2 - lam1) * PI / 180 / 2) by field.
    reflexivity.
Qed.

Lemma distance_is_great_circle_witness :
  -90 <= 515074 / 10000 <= 90 /\ -180 <= - (1278 / 10000) <= 180
  /\ -90 <= 407128 / 10000 <= 90 /\ -180 <= - (74006 / 1000) <= 180
  /\ exists d,
       calculateHaversineDistanceKm
         (mkDistance (515074 / 10000) (- (1278 / 10000))
                     (407128 / 10000) (- (74006 / 1000))) = Fin d
       /\ 0 <= d <= 6371 * PI
       /\ cos (d / 6371)
          = sin (515074 / 10000 * PI / 180) * sin (407128 / 10000 * PI / 180)
            + cos (515074 / 10000 * PI / 180) * cos (407128 / 10000 * PI / 180)
              * cos ((- (74006 / 1000) - - (1278 / 10000)) * PI / 180).
Proof.
  assert (H1 : -90 <= 515074 / 10000 <= 90) by lra.
  assert (H2 : -180 <= - (1278 / 10000) <= 180) by lra.
  assert (H3 : -90 <= 407128 / 10000 <= 90) by lra.
  assert (H4 : -180 <= - (74006 / 1000) <= 180) by lra.
  split; [ exact H1 | split; [ exact H2 | split; [ exact H3 | split; [ exact H4 | ] ] ] ].
  exact (distance_is_great_circle _ _ _ _ H1 H2 H3 H4).
Defined.

(** *** When the distance is zero *)

Lemma sin_zero_small u : - (PI / 2) <= u <= PI / 2 -> sin u = 0 -> u = 0.
Proof.
  intros [H1 H2] Hs. generalize PI_bounds; intros [? ?].
  destruct (Rtotal_order u 0) as [Hu | [Hu | Hu]]; [ exfalso | exact Hu | exfalso ].
  - assert (0 < sin (- u)) by (apply sin_gt_0; lra). rewrite sin_neg in *. lra.
  - assert (0 < sin u) by (apply sin_gt_0; lra). lra.
Qed.

Lemma sin_zero_wide v : - PI <= v <= PI -> sin v = 0 -> v = 0 \/ Rabs v = PI.
Proof.
  intros [H1 H2] Hs. generalize PI_bounds; intros [? ?].
  destruct (Rtotal_order v 0) as [Hv | [Hv | Hv]].
  - right. rewrite Rabs_left by exact Hv.
    destruct (Req_dec (- v) PI) as [E | E]; [ exact E | exfalso ].
    assert (0 < sin (- v)) by (apply sin_gt_0; lra). rewrite sin_neg in *. lra.
  - now left.
  - right. rewrite Rabs_right by lra.
    destruct (Req_dec v PI) as [E | E]; [ exact E | exfalso ].
    assert (0 < sin v) by (apply sin_gt_0; lra). lra.
Qed.

Lemma cos_zero_of_deg phi : -90 <= phi <= 90 -> cos (phi * PI / 180) = 0 -> Rabs phi = 90.
Proof.
  intros [H1 H2] Hc.
  destruct (Req_dec phi 90) as [-> | E1]; [ apply Rabs_right; lra | ].
  destruct (Req_dec phi (-90)) as [-> | E2]; [ rewrite Rabs_left; lra | ].
  exfalso. assert (0 < cos (phi * PI / 180)) by (apply cos_pos_of_deg; lra). lra.
Qed.

Lemma cos_of_pole phi : Rabs phi = 90 -> cos (phi * PI / 180) = 0.
Proof.
  unfold Rabs. destruct (Rcase_abs phi); intros E.
  - replace phi with (-90) by lra.
    replace (-90 * PI / 180) with (- (PI / 2)) by field. rewrite cos_neg. apply cos_PI2.
  - rewrite E. replace (90 * PI / 180) with (PI / 2) by field. apply cos_PI2.
Qed.

Lemma distanceR_zero a : 0 <= a <= 1 -> (distanceR a = 0 <-> a = 0).
Proof.
  intros Ha. split.
  - rewrite distanceR_asin by exact Ha. intros E.
    assert (Hq : -1 <= sqrt a <= 1).
    { split; [ generalize (sqrt_pos a); lra | rewrite <- sqrt_1; apply sqrt_le_1_alt; lra ]. }
    assert (Ea : asin (sqrt a) = 0) by lra.
    assert (Es : sqrt a = 0) by (rewrite <- (sin_asin (sqrt a) Hq), Ea; apply sin_0).
    apply sqrt_eq_0; lra.
  - intros ->. apply distanceR_0.
Qed.

(** X2 -- The distance separates points: for valid coordinates the result
    is 0 exactly when the two coordinates name the same point of the
    sphere, that is when the latitudes are equal and the longitudes are
    equal, or differ by 360 degrees (-180 and 180 are one meridian), or the
    common latitude is a pole. *)
Theorem distance_zero_iff phi1 lam1 phi2 lam2 :
  -90 <= phi1 <= 90 -> -180 <= lam1 <= 180 ->
  -90 <= phi2 <= 90 -> -180 <= lam2 <= 180 ->
  calculateHaversineDistanceKm (mkDistance phi1 lam1 phi2 lam2) = Fin 0
  <-> phi1 = phi2
      /\ (lam1 = lam2 \/ Rabs (lam2 - lam1) = 360 \/ Rabs phi1 = 90).
Proof.
  intros Hp1 Hl1 Hp2 Hl2. generalize PI_bounds; intros [? ?].
  rewrite distance_of_valid by assumption.
  generalize (haversineR_range phi1 lam1 phi2 lam2 Hp1 Hp2); intros Ha.
  assert (Hiff : Fin (distanceR (haversineR phi1 lam1 phi2 lam2)) = Fin 0
                 <-> haversineR phi1 lam1 phi2 lam2 = 0).
  { rewrite <- (distanceR_zero _ Ha). split; [ intros E; now injection E | now intros -> ]. }
  rewrite Hiff. clear Hiff Ha. unfold haversineR.
  generalize (cos_nonneg_of_deg phi1 Hp1), (cos_nonneg_of_deg phi2 Hp2); intros C1 C2.
  set (u := (phi2 - phi1) * PI / 180 / 2).
  set (v := (lam2 - lam1) * PI / 180 / 2).
  assert (Hu2 : 0 <= sin u * sin u) by nra.
  assert (Hv2 : 0 <= sin v * sin v) by nra.
  assert (Hvc : 0 <= sin v * sin v * cos (phi1 * PI / 180) * cos (phi2 * PI / 180)).
  { rewrite Rmult_assoc. apply Rmult_le_pos; [ exact Hv2 | now apply Rmult_le_pos ]. }
  split.
  - intros E.
    assert (Eu : sin u = 0) by nra.
    assert (Ev : sin v * sin v * cos (phi1 * PI / 180) * cos (phi2 * PI / 180) = 0) by nra.
    assert (E0 : u = 0) by (apply sin_zero_small; [ unfold u; nra | exact Eu ]).
    assert (Ep : phi1 = phi2) by (unfold u in E0; nra).
    split; [ exact Ep | ]. subst phi2.
    destruct (Req_dec (cos (phi1 * PI / 180)) 0) as [Ec | Ec].
    + right; right. now apply cos_zero_of_deg.
    + assert (Es : sin v = 0).
      { apply Rmult_integral in Ev. destruct Ev as [Ev | Ev]; [ | contradiction ].
        apply Rmult_integral in Ev. destruct Ev as [Ev | Ev]; [ | contradiction ].
        apply Rmult_integral in Ev. now destruct Ev. }
      destruct (sin_zero_wide v) as [Z | Z]; [ unfold v; nra | exact Es | | ].
      * left. unfold v in Z. nra.
      * right; left. unfold v in Z.
        replace ((lam2 - lam1) * PI / 180 / 2) with ((lam2 - lam1) * (PI / 360)) in Z by field.
        rewrite Rabs_mult, (Rabs_right (PI / 360)) in Z by lra. nra.
  - intros [<- Hc].
    assert (Eu : u = 0) by (unfold u; field). rewrite Eu, sin_0.
    destruct Hc as [-> | [Hc | Hc]].
    + assert (Ev : v = 0) by (unfold v; field). rewrite Ev, sin_0. ring.
    + assert (Es : sin v = 0).
      { assert (Ea : Rabs v = PI).
        { unfold v.
          replace ((lam2 - lam1) * PI / 180 / 2) with ((lam2 - lam1) * (PI / 360)) by field.
          rewrite Rabs_mult, (Rabs_right (PI / 360)), Hc by lra. field. }
        unfold Rabs in Ea. destruct (Rcase_abs v).
        - replace v with (- PI) by lra. rewrite sin_neg, sin_PI. ring.
        - rewrite Ea. apply sin_PI. }
      rewrite Es. ring.
    + rewrite (cos_of_pole _ Hc). ring.
Qed.

Lemma distance_zero_iff_witness :
  -90 <= 10 <= 90 /\ -180 <= -180 <= 180 /\ -90 <= 10 <= 90 /\ -180 <= 180 <= 180
  /\ (calculateHaversineDistanceKm (mkDistance 10 (-180) 10 180) = Fin 0
      <-> 10 = 10 /\ (-180 = 180 \/ Rabs (180 - -180) = 360 \/ Rabs 10 = 90)).
Proof.
  assert (H1 : -90 <= 10 <= 90) by lra.
  assert (H2 : -180 <= -180 <= 180) by lra.
  assert (H4 : -180 <= 180 <= 180) by lra.
  split; [ exact H1 | split; [ exact H2 | split; [ exact H1 | split; [ exact H4 | ] ] ] ].
  exact (distance_zero_iff 10 (-180) 10 180 H1 H2 H1 H4).
Defined.

(** *** Along a meridian and along the equator *)

Lemma sqrt_sin_sq u : sqrt (sin u * sin u) = Rabs (sin u).
Proof. apply sqrt_Rsqr_abs. Qed.

Lemma asin_abs_sin_small u : - (PI / 2) <= u <= PI / 2 -> asin (Rabs (sin u)) = Rabs u.
Proof.
  intros [H1 H2]. generalize PI_bounds; intros [? ?].
  unfold Rabs at 2. destruct (Rcase_abs u) as [Hu | Hu].
  - assert (Hs : sin u <= 0).
    { rewrite <- (Ropp_involutive u), sin_neg.
      assert (0 <= sin (- u)) by (apply sin_ge_0; lra). lra. }
    rewrite Rabs_left1 by exact Hs. rewrite <- sin_neg. apply asin_sin; lra.
  - assert (Hs : 0 <= sin u) by (apply sin_ge_0; lra).
    rewrite Rabs_right by lra. apply asin_sin; lra.
Qed.

Lemma asin_abs_sin_large u :
  PI / 2 <= Rabs u <= PI -> asin (Rabs (sin u)) = PI - Rabs u.
Proof.
  intros [H1 H2]. generalize PI_bounds; intros [? ?].
  assert (E : Rabs (sin u) = sin (PI - Rabs u)).
  { rewrite sin_PI_x. unfold Rabs at 2. destruct (Rcase_abs u) as [Hu | Hu].
    - rewrite Rabs_left1 in H1, H2 by lra.
      rewrite sin_neg. apply Rabs_left1.
      rewrite <- (Ropp_involutive u), sin_neg.
      assert (0 <= sin (- u)) by (apply sin_ge_0; lra). lra.
    - rewrite Rabs_right in H1, H2 by lra.
      apply Rabs_right. apply Rle_ge. apply sin_ge_0; lra. }
  rewrite E. apply asin_sin; lra.
Qed.

(** Between two points of one meridian the distance is the arc of the
    difference of the latitudes. *)
Lemma meridian_distance phi1 phi2 lam :
  -90 <= phi1 <= 90 -> -90 <= phi2 <= 90 -> -180 <= lam <= 180 ->
  calculateHaversineDistanceKm (mkDistance phi1 lam phi2 lam)
  = Fin (6371 * (Rabs (phi2 - phi1) * PI / 180)).
Proof.
  intros Hp1 Hp2 Hl. generalize PI_bounds; intros [? ?].
  rewrite distance_of_valid by assumption. f_equal.
  rewrite distanceR_asin by (now apply haversineR_range).
  unfold haversineR.
  replace ((lam - lam) * PI / 180 / 2) with 0 by field.
  rewrite sin_0, !Rmult_0_l, Rplus_0_r, sqrt_sin_sq.
  rewrite asin_abs_sin_small by nra.
  replace ((phi2 - phi1) * PI / 180 / 2) with ((phi2 - phi1) * (PI / 360)) by field.
  rewrite Rabs_mult, (Rabs_right (PI / 360)) by lra. field.
Qed.

(** X3 -- Along a meridian the distance is the arc length: for two valid
    points of the same longitude the result is
    [6371 * |lat2 - lat1| * PI / 180], that is 111.19 km for each degree
    of latitude. *)
Theorem distance_along_meridian phi1 phi2 lam :
  -90 <= phi1 <= 90 -> -90 <= phi2 <= 90 -> -180 <= lam <= 180 ->
  calculateHaversineDistanceKm (mkDistance phi1 lam phi2 lam)
  = Fin (6371 * (Rabs (phi2 - phi1) * PI / 180)).
Proof. apply meridian_distance. Qed.

Lemma distance_along_meridian_witness :
  -90 <= 375665 / 10000 <= 90 /\ -90 <= 385665 / 10000 <= 90
  /\ -180 <= 126978 / 1000 <= 180
  /\ calculateHaversineDistanceKm
       (mkDistance (375665 / 10000) (126978 / 1000) (385665 / 10000) (126978 / 1000))
     = Fin (6371 * (Rabs (385665 / 10000 - 375665 / 10000) * PI / 180)).
Proof.
  assert (H1 : -90 <= 375665 / 10000 <= 90) by lra.
  assert (H2 : -90 <= 385665 / 10000 <= 90) by lra.
  assert (H3 : -180 <= 126978 / 1000 <= 180) by lra.
  split; [ exact H1 | split; [ exact H2 | split; [ exact H3 | ] ] ].
  exact (distance_along_meridian _ _ _ H1 H2 H3).
Defined.

(** X4 -- Along the equator the distance takes the shorter way round: for
    two valid points of latitude 0 the result is
    [6371 * min (|lon2 - lon1|, 360 - |lon2 - lon1|) * PI / 180].  The
    antimeridian needs no special case in the distance. *)
Theorem distance_along_equator lam1 lam2 :
  -180 <= lam1 <= 180 -> -180 <= lam2 <= 180 ->
  calculateHaversineDistanceKm (mkDistance 0 lam1 0 lam2)
  = Fin (6371 * (Rmin (Rabs (lam2 - lam1)) (360 - Rabs (lam2 - lam1)) * PI / 180)).
Proof.
  intros Hl1 Hl2. generalize PI_bounds; intros [? ?].
  rewrite distance_of_valid by (assumption || lra). f_equal.
  rewrite distanceR_asin by (apply haversineR_range; lra).
  unfold haversineR.
  replace ((0 - 0) * PI / 180 / 2) with 0 by field.
  replace (0 * PI / 180) with 0 by field.
  rewrite sin_0, cos_0, Rmult_0_l, Rplus_0_l, !Rmult_1_r, sqrt_sin_sq.
  set (v := (lam2 - lam1) * PI / 180 / 2).
  assert (Ev : Rabs v = Rabs (lam2 - lam1) * (PI / 360)).
  { unfold v.
    replace ((lam2 - lam1) * PI / 180 / 2) with ((lam2 - lam1) * (PI / 360)) by field.
    rewrite Rabs_mult, (Rabs_right (PI / 360)) by lra. reflexivity. }
  assert (Hd : 0 <= Rabs (lam2 - lam1) <= 360).
  { split; [ apply Rabs_pos | unfold Rabs; destruct (Rcase_abs (lam2 - lam1)); lra ]. }
  destruct (Rle_dec (Rabs (lam2 - lam1)) 180) as [Hs | Hs].
  - rewrite Rmin_left by lra.
    rewrite asin_abs_sin_small; [ rewrite Ev; field | ].
    assert (Rabs v <= PI / 2) by (rewrite Ev; nra).
    unfold Rabs in *. destruct (Rcase_abs v); lra.
  - rewrite Rmin_right by lra.
    rewrite asin_abs_sin_large; [ rewrite Ev; field | ].
    rewrite Ev. nra.
Qed.

Lemma distance_along_equator_witness :
  -180 <= 1799 / 10 <= 180 /\ -180 <= - (1799 / 10) <= 180
  /\ calculateHaversineDistanceKm (mkDistance 0 (1799 / 10) 0 (- (1799 / 10)))
     = Fin (6371 * (Rmin (Rabs (- (1799 / 10) - 1799 / 10))
                         (360 - Rabs (- (1799 / 10) - 1799 / 10)) * PI / 180)).
Proof.
  assert (H1 : -180 <= 1799 / 10 <= 180) by lra.
  assert (H2 : -180 <= - (1799 / 10) <= 180) by lra.
  split; [ exact H1 | split; [ exact H2 | ] ].
  exact (distance_along_equator _ _ H1 H2).
Defined.

(** * Further properties of the box

    How the box of [computeBoundingBox] depends on the radius, and its
    closed form, in exact arithmetic. *)

Lemma boxWithin_Fin a b c d a' b' c' d' :
  a' <= a -> b <= b' -> c' <= c -> d <= d' ->
  boxWithin {| minLatitude := Fin a; maxLatitude := Fin b;
               minLongitude := Fin c; maxLongitude := Fin d |}
            {| minLatitude := Fin a'; maxLatitude := Fin b';
               minLongitude := Fin c'; maxLongitude := Fin d' |} = true.
Proof.
  intros. unfold boxWithin; cbn [minLatitude maxLatitude minLongitude maxLongitude].
  repeat (apply andb_true_iff; split); apply le_Fin; lra.
Qed.

Lemma deg_le a b : a <= b -> a * 180 / PI <= b * 180 / PI.
Proof.
  intros H. generalize PI_bounds; intros [? ?]. unfold Rdiv.
  apply Rmult_le_compat_r; [ left; apply Rinv_0_lt_compat; lra | lra ].
Qed.

Lemma halfWidthDeg_le s t : s <= t -> halfWidthDeg s <= halfWidthDeg t.
Proof.
  intros H. unfold halfWidthDeg. apply deg_le.
  unfold Rdiv. apply Rmult_le_compat_r; lra.
Qed.

Lemma flooredRadius_le r1 r2 :
  r1 <> NaN -> r2 <> PosInfinity -> (r1 <=? r2)%js = true ->
  r1 <> PosInfinity /\ flooredRadius r1 <= flooredRadius r2.
Proof.
  intros Hn Hp H.
  destruct r1 as [ | | | x]; destruct r2 as [ | | | y];
    try congruence; try discriminate; simpl.
  - split; [ discriminate | lra ].
  - split; [ discriminate | apply Rmax_r ].
  - apply le_Fin in H. split; [ discriminate | ].
    unfold Rmax. destruct (Rle_dec x (1 / 10)); destruct (Rle_dec y (1 / 10)); lra.
Qed.

(** Away from the poles the longitude half-width grows with the radius. *)
Lemma lonHalfWidthDeg_le s t phi :
  0 < s -> s <= t ->
  -90 < phi - halfWidthDeg t -> phi + halfWidthDeg t < 90 ->
  lonHalfWidthDeg s phi <= lonHalfWidthDeg t phi.
Proof.
  intros Hs Hst Hlo Hhi. generalize PI_bounds; intros [? ?].
  assert (Ht : 0 < t) by lra.
  destruct (inner_quotient phi t Ht Hlo Hhi) as [Hc [Hq0 Hq1]].
  destruct (inner_rad phi t Ht Hlo Hhi) as [Hr1 Hr2].
  assert (Hs6 : 0 < s / 6371) by (apply Rdiv_lt_0_compat; lra).
  assert (Hst6 : s / 6371 <= t / 6371) by (unfold Rdiv; apply Rmult_le_compat_r; lra).
  assert (Hsin : sin (s / 6371) <= sin (t / 6371)) by (apply sin_incr_1; lra).
  assert (Hs0 : 0 < sin (s / 6371)) by (apply sin_gt_0; lra).
  assert (Hq : sin (s / 6371) / cos (phi * PI / 180)
               <= sin (t / 6371) / cos (phi * PI / 180)).
  { unfold Rdiv. apply Rmult_le_compat_r; [ left; now apply Rinv_0_lt_compat | exact Hsin ]. }
  assert (Hq' : 0 < sin (s / 6371) / cos (phi * PI / 180)) by (now apply Rdiv_lt_0_compat).
  unfold lonHalfWidthDeg. apply deg_le. apply asin_le; lra.
Qed.

(** Away from the poles the longitude half-width is at least the latitude
    half-width. *)
Lemma lonHalfWidthDeg_ge s phi :
  0 < s -> -90 < phi - halfWidthDeg s -> phi + halfWidthDeg s < 90 ->
  halfWidthDeg s <= lonHalfWidthDeg s phi.
Proof.
  intros Hs Hlo Hhi. generalize PI_bounds; intros [? ?].
  destruct (inner_quotient phi s Hs Hlo Hhi) as [Hc [Hq0 Hq1]].
  destruct (inner_rad phi s Hs Hlo Hhi) as [Hr1 Hr2].
  assert (Ha : 0 < s / 6371) by (apply Rdiv_lt_0_compat; lra).
  assert (Hsin : 0 < sin (s / 6371)) by (apply sin_gt_0; lra).
  generalize (COS_bound (phi * PI / 180)); intros [_ Hc1].
  assert (Hq : sin (s / 6371) <= sin (s / 6371) / cos (phi * PI / 180)).
  { assert (Hi : 1 <= / cos (phi * PI / 180)).
    { rewrite <- Rinv_1 at 1. apply Rinv_le_contravar; lra. }
    unfold Rdiv. rewrite <- (Rmult_1_r (sin (s / 6371))) at 1.
    apply Rmult_le_compat_l; lra. }
  assert (Hle : s / 6371 <= asin (sin (s / 6371) / cos (phi * PI / 180))).
  { rewrite <- (asin_sin (s / 6371)) at 1 by lra. apply asin_le; lra. }
  unfold lonHalfWidthDeg, halfWidthDeg. now apply deg_le.
Qed.

(** The latitude bounds of a box, for every radius but NaN and +Infinity,
    and the range of its longitude bounds. *)
Lemma box_latitudes phi lam r :
  -90 <= phi <= 90 -> -180 <= lam <= 180 ->
  r <> NaN -> r <> PosInfinity ->
  exists c d,
    -180 <= c <= 180 /\ -180 <= d <= 180 /\
    computeBoundingBox (mkParams phi lam r)
    = {| minLatitude := Fin (clampR (-90) 90 (phi - halfWidthDeg (flooredRadius r)));
         maxLatitude := Fin (clampR (-90) 90 (phi + halfWidthDeg (flooredRadius r)));
         minLongitude := Fin c; maxLongitude := Fin d |}.
Proof.
  intros Hphi Hlam Hn Hp.
  destruct (radius_cases phi r Hn) as [-> | [[_ Hpole] | (_ & Hlo & Hhi)]].
  - congruence.
  - exists (-180), 180. split; [ lra | split; [ lra | ] ].
    now apply box_of_pole_case.
  - assert (Hs : 0 < flooredRadius r) by (generalize (flooredRadius_pos r); lra).
    generalize (halfWidthDeg_pos _ Hs); intros HD.
    exists (clampR (-180) 180 (lam - lonHalfWidthDeg (flooredRadius r) phi)),
           (clampR (-180) 180 (lam + lonHalfWidthDeg (flooredRadius r) phi)).
    split; [ apply clampR_range; lra | split; [ apply clampR_range; lra | ] ].
    rewrite box_of_inner_case by assumption.
    rewrite (clampR_id (-90) 90 (phi - halfWidthDeg (flooredRadius r))) by lra.
    rewrite (clampR_id (-90) 90 (phi + halfWidthDeg (flooredRadius r))) by lra.
    reflexivity.
Qed.

(** For a valid center and a radius other than NaN the box is four reals
    around the center, inside the canonical ranges. *)
Lemma box_around_center phi lam r :
  -90 <= phi <= 90 -> -180 <= lam <= 180 -> r <> NaN ->
  exists a b c d,
    computeBoundingBox (mkParams phi lam r)
    = {| minLatitude := Fin a; maxLatitude := Fin b;
         minLongitude := Fin c; maxLongitude := Fin d |}
    /\ -90 <= a <= phi /\ phi <= b <= 90 /\ -180 <= c <= lam /\ lam <= d <= 180.
Proof.
  intros Hphi Hlam Hn.
  destruct (radius_cases phi r Hn) as [-> | [[Hp Hpole] | (Hp & Hlo & Hhi)]].
  - exists (-90), 90, (-180), 180. split; [ now apply box_of_infinite_radius | lra ].
  - assert (Hs : 0 < flooredRadius r) by (generalize (flooredRadius_pos r); lra).
    generalize (halfWidthDeg_pos _ Hs); intros HD.
    eexists _, _, _, _. split; [ now apply box_of_pole_case | ].
    generalize (clampR_range (-90) 90 (phi - halfWidthDeg (flooredRadius r))).
    generalize (clampR_range (-90) 90 (phi + halfWidthDeg (flooredRadius r))).
    generalize (clampR_around (-90) 90 phi (halfWidthDeg (flooredRadius r))).
    lra.
  - assert (Hs : 0 < flooredRadius r) by (generalize (flooredRadius_pos r); lra).
    generalize (halfWidthDeg_pos _ Hs); intros HD.
    destruct (lonHalfWidthDeg_bounds phi _ Hs Hlo Hhi) as [HL _].
    eexists _, _, _, _. split; [ now apply box_of_inner_case | ].
    generalize (clampR_range (-180) 180 (lam - lonHalfWidthDeg (flooredRadius r) phi)).
    generalize (clampR_range (-180) 180 (lam + lonHalfWidthDeg (flooredRadius r) phi)).
    generalize (clampR_around (-180) 180 lam (lonHalfWidthDeg (flooredRadius r) phi)).
    lra.
Qed.

(** X5 -- The box grows with the radius: for a valid center and two radii
    [r1 <= r2], neither of them NaN, the box of [r1] lies within the box of
    [r2], bound by bound.  A caller that widens the search never loses a
    row of the narrower box. *)
Theorem box_grows_with_radius phi lam (r1 r2 : number) :
  -90 <= phi <= 90 -> -180 <= lam <= 180 ->
  r1 <> NaN -> r2 <> NaN -> (r1 <=? r2)%js = true ->
  boxWithin (computeBoundingBox (mkParams phi lam r1))
            (computeBoundingBox (mkParams phi lam r2)) = true.
Proof.
  intros Hphi Hlam Hn1 Hn2 Hle.
  destruct (radius_cases phi r2 Hn2) as [-> | [[Hp2 Hpole] | (Hp2 & Hlo & Hhi)]].
  - rewrite (box_of_infinite_radius phi lam) by assumption.
    destruct (box_around_center phi lam r1 Hphi Hlam Hn1) as (a & b & c & d & -> & ?).
    apply boxWithin_Fin; lra.
  - destruct (flooredRadius_le r1 r2 Hn1 Hp2 Hle) as [Hp1 Hs].
    generalize (halfWidthDeg_le _ _ Hs); intros Hh.
    destruct (box_latitudes phi lam r1 Hphi Hlam Hn1 Hp1) as (c & d & Hc & Hd & ->).
    rewrite box_of_pole_case by assumption.
    apply boxWithin_Fin; try lra; apply clampR_mono; lra.
  - destruct (flooredRadius_le r1 r2 Hn1 Hp2 Hle) as [Hp1 Hs].
    generalize (halfWidthDeg_le _ _ Hs); intros Hh.
    assert (H1 : 0 < flooredRadius r1) by (generalize (flooredRadius_pos r1); lra).
    generalize (lonHalfWidthDeg_le _ _ phi H1 Hs Hlo Hhi); intros Hw.
    rewrite !box_of_inner_case by (assumption || lra).
    apply boxWithin_Fin; try lra; apply clampR_mono; lra.
Qed.

Lemma box_grows_with_radius_witness :
  -90 <= 375665 / 10000 <= 90 /\ -180 <= 126978 / 1000 <= 180
  /\ Fin 25 <> NaN /\ Fin 100 <> NaN /\ (Fin 25 <=? Fin 100)%js = true
  /\ boxWithin (computeBoundingBox (mkParams (375665 / 10000) (126978 / 1000) (Fin 25)))
               (computeBoundingBox (mkParams (375665 / 10000) (126978 / 1000) (Fin 100)))
     = true.
Proof.
  assert (H1 : -90 <= 375665 / 10000 <= 90) by lra.
  assert (H2 : -180 <= 126978 / 1000 <= 180) by lra.
  assert (H3 : Fin 25 <> NaN) by discriminate.
  assert (H4 : Fin 100 <> NaN) by discriminate.
  assert (H5 : (Fin 25 <=? Fin 100)%js = true) by (apply le_Fin; lra).
  split; [ exact H1 | split; [ exact H2 | split; [ exact H3 | split; [ exact H4 | ] ] ] ].
  split; [ exact H5 | ].
  exact (box_grows_with_radius _ _ _ _ H1 H2 H3 H4 H5).
Defined.

Lemma halfWidthDeg_half_turn s : 6371 * PI <= s -> 180 <= halfWidthDeg s.
Proof.
  intros H. generalize PI_bounds; intros [? ?]. unfold halfWidthDeg.
  apply (Rmult_le_reg_r PI); [ lra | ].
  unfold Rdiv at 1. rewrite Rmult_assoc, Rinv_l by lra. lra.
Qed.

(** X6 -- A radius of half the circumference covers the globe: for a valid
    center and a radius of at least [6371 * PI] km (about 20015 km, the
    largest distance the module returns), +Infinity included, the box is
    the whole globe. *)
Theorem radius_of_half_circumference phi lam (r : number) :
  -90 <= phi <= 90 -> -180 <= lam <= 180 ->
  (Fin (6371 * PI) <=? r)%js = true ->
  computeBoundingBox (mkParams phi lam r) = wholeGlobe.
Proof.
  intros Hphi Hlam Hr. generalize PI_bounds; intros [? ?].
  destruct r as [ | | | x]; simpl in Hr; try discriminate.
  - now apply box_of_infinite_radius.
  - apply Rleb_true in Hr.
    assert (Hf : flooredRadius (Fin x) = x) by (apply flooredRadius_Fin; lra).
    generalize (halfWidthDeg_half_turn x Hr); intros Hh.
    rewrite box_of_pole_case; try assumption; try discriminate.
    + rewrite Hf. rewrite clampR_lo, clampR_hi by lra. reflexivity.
    + rewrite Hf. left. lra.
Qed.

Lemma radius_of_half_circumference_witness :
  -90 <= 375665 / 10000 <= 90 /\ -180 <= 126978 / 1000 <= 180
  /\ (Fin (6371 * PI) <=? Fin (6371 * 4))%js = true
  /\ computeBoundingBox (mkParams (375665 / 10000) (126978 / 1000) (Fin (6371 * 4)))
     = wholeGlobe.
Proof.
  assert (H1 : -90 <= 375665 / 10000 <= 90) by lra.
  assert (H2 : -180 <= 126978 / 1000 <= 180) by lra.
  assert (H3 : (Fin (6371 * PI) <=? Fin (6371 * 4))%js = true).
  { apply le_Fin. generalize PI_bounds; intros [? ?]. lra. }
  split; [ exact H1 | split; [ exact H2 | split; [ exact H3 | ] ] ].
  exact (radius_of_half_circumference _ _ _ H1 H2 H3).
Defined.

(** X7 -- The box away from the poles: for a valid center and a real radius
    [x], with [h = (max x 0.1 / 6371) * 180 / PI] degrees, if
    [-90 < lat - h] and [lat + h < 90] then the latitude bounds are exactly
    [lat - h] and [lat + h], and the longitude bounds are [lon - w] and
    [lon + w] clamped to [-180, 180], for a half-width [w] with
    [h <= w < 90]: the box is centred on the center and at least as wide in
    longitude as in latitude. *)
Theorem box_away_from_poles phi lam x :
  -90 <= phi <= 90 -> -180 <= lam <= 180 ->
  -90 < phi - halfWidthDeg (Rmax x (1 / 10)) ->
  phi + halfWidthDeg (Rmax x (1 / 10)) < 90 ->
  exists w,
    halfWidthDeg (Rmax x (1 / 10)) <= w < 90
    /\ computeBoundingBox (mkParams phi lam (Fin x))
       = {| minLatitude := Fin (phi - halfWidthDeg (Rmax x (1 / 10)));
            maxLatitude := Fin (phi + halfWidthDeg (Rmax x (1 / 10)));
            minLongitude := Fin (clampR (-180) 180 (lam - w));
            maxLongitude := Fin (clampR (-180) 180 (lam + w)) |}.
Proof.
  intros Hphi Hlam Hlo Hhi.
  change (Rmax x (1 / 10)) with (flooredRadius (Fin x)) in *.
  assert (Hs : 0 < flooredRadius (Fin x)) by (generalize (flooredRadius_pos (Fin x)); lra).
  exists (lonHalfWidthDeg (flooredRadius (Fin x)) phi). split; [ split | ].
  - now apply lonHalfWidthDeg_ge.
  - now apply lonHalfWidthDeg_bounds.
  - apply box_of_inner_case; try assumption; discriminate.
Qed.

Lemma equator_example_inner :
  -90 < 0 - halfWidthDeg (Rmax 100 (1 / 10)) /\ 0 + halfWidthDeg (Rmax 100 (1 / 10)) < 90.
Proof.
  rewrite Rmax_left by lra. generalize halfWidthDeg_100, halfWidthDeg_100_lt_1. lra.
Qed.

Lemma box_away_from_poles_witness :
  -90 <= 0 <= 90 /\ -180 <= 0 <= 180
  /\ -90 < 0 - halfWidthDeg (Rmax 100 (1 / 10))
  /\ 0 + halfWidthDeg (Rmax 100 (1 / 10)) < 90
  /\ exists w,
       halfWidthDeg (Rmax 100 (1 / 10)) <= w < 90
       /\ computeBoundingBox (mkParams 0 0 (Fin 100))
          = {| minLatitude := Fin (0 - halfWidthDeg (Rmax 100 (1 / 10)));
               maxLatitude := Fin (0 + halfWidthDeg (Rmax 100 (1 / 10)));
               minLongitude := Fin (clampR (-180) 180 (0 - w));
               maxLongitude := Fin (clampR (-180) 180 (0 + w)) |}.
Proof.
  assert (H1 : -90 <= 0 <= 90) by lra.
  assert (H2 : -180 <= 0 <= 180) by lra.
  destruct equator_example_inner as [H3 H4].
  split; [ exact H1 | split; [ exact H2 | split; [ exact H3 | split; [ exact H4 | ] ] ] ].
  exact (box_away_from_poles 0 0 100 H1 H2 H3 H4).
Defined.

(** X8 -- The latitude bounds are tight: for a valid center and a real
    radius whose box stays away from the poles, the points of the center's
    meridian at the box's maximal and minimal latitude are both exactly
    [max x 0.1] km from the center, as [calculateHaversineDistanceKm]
    measures it. *)
Theorem box_latitude_bounds_at_radius phi lam x :
  -90 <= phi <= 90 -> -180 <= lam <= 180 ->
  -90 < phi - halfWidthDeg (Rmax x (1 / 10)) ->
  phi + halfWidthDeg (Rmax x (1 / 10)) < 90 ->
  calculateHaversineDistanceKm
    {| origin := mkCoordinate phi lam;
       destination :=
         {| latitude := maxLatitude (computeBoundingBox (mkParams phi lam (Fin x)));
            longitude := Fin lam |} |}
  = Fin (Rmax x (1 / 10))
  /\ calculateHaversineDistanceKm
       {| origin := mkCoordinate phi lam;
          destination :=
            {| latitude := minLatitude (computeBoundingBox (mkParams phi lam (Fin x)));
               longitude := Fin lam |} |}
     = Fin (Rmax x (1 / 10)).
Proof.
  intros Hphi Hlam Hlo Hhi. generalize PI_bounds; intros [? ?].
  change (Rmax x (1 / 10)) with (flooredRadius (Fin x)) in *.
  assert (Hs : 0 < flooredRadius (Fin x)) by (generalize (flooredRadius_pos (Fin x)); lra).
  generalize (halfWidthDeg_pos _ Hs); intros HD.
  rewrite box_of_inner_case by (assumption || discriminate).
  cbn [minLatitude maxLatitude].
  set (s := flooredRadius (Fin x)) in *.
  assert (Es : 6371 * (halfWidthDeg s * PI / 180) = s) by (unfold halfWidthDeg; field; lra).
  split.
  - change (calculateHaversineDistanceKm (mkDistance phi lam (phi + halfWidthDeg s) lam)
            = Fin s).
    rewrite meridian_distance by lra. f_equal.
    replace (phi + halfWidthDeg s - phi) with (halfWidthDeg s) by ring.
    rewrite Rabs_right by lra. exact Es.
  - change (calculateHaversineDistanceKm (mkDistance phi lam (phi - halfWidthDeg s) lam)
            = Fin s).
    rewrite meridian_distance by lra. f_equal.
    replace (phi - halfWidthDeg s - phi) with (- halfWidthDeg s) by ring.
    rewrite Rabs_left by lra. rewrite Ropp_involutive. exact Es.
Qed.

Lemma box_latitude_bounds_at_radius_witness :
  -90 <= 0 <= 90 /\ -180 <= 0 <= 180
  /\ -90 < 0 - halfWidthDeg (Rmax 100 (1 / 10))
  /\ 0 + halfWidthDeg (Rmax 100 (1 / 10)) < 90
  /\ calculateHaversineDistanceKm
       {| origin := mkCoordinate 0 0;
          destination :=
            {| latitude := maxLatitude (computeBoundingBox (mkParams 0 0 (Fin 100)));
               longitude := Fin 0 |} |}
     = Fin (Rmax 100 (1 / 10))
  /\ calculateHaversineDistanceKm
       {| origin := mkCoordinate 0 0;
          destination :=
            {| latitude := minLatitude (computeBoundingBox (mkParams 0 0 (Fin 100)));
               longitude := Fin 0 |} |}
     = Fin (Rmax 100 (1 / 10)).
Proof.
  assert (H1 : -90 <= 0 <= 90) by lra.
  assert (H2 : -180 <= 0 <= 180) by lra.
  destruct equator_example_inner as [H3 H4].
  split; [ exact H1 | split; [ exact H2 | split; [ exact H3 | split; [ exact H4 | ] ] ] ].
  exact (box_latitude_bounds_at_radius 0 0 100 H1 H2 H3 H4).
Defined.

(** * The nearby-search endpoint

    What the endpoint hands to the geo module, and what it keeps of the
    rows it measures.  Every statement holds for every reading
    [StringToNumber] of strings as numbers. *)

Section NearbyEndpoint.

Import String.
Local Open Scope list_scope.
Local Open Scope string_scope.
Local Open Scope R_scope.

Lemma lt_Fin_false x y : (Fin x <? Fin y)%js = false <-> y <= x.
Proof. apply Rltb_false. Qed.

Lemma clamp_Fin x lo hi : Nearby.clamp (Fin x) (Fin lo) (Fin hi) = Fin (clampR lo hi x).
Proof. unfold Nearby.clamp. now rewrite Math_max_Fin, Math_min_Fin. Qed.

Lemma parseNumberParam_Fin (S : string -> number) value n :
  Nearby.parseNumberParam S value = Some n ->
  exists s x, value = Some s /\ s <> EmptyString /\ S s = Fin x /\ n = Fin x.
Proof.
  unfold Nearby.parseNumberParam.
  destruct value as [[ | c s] | ]; try discriminate.
  destruct (S (String c s)) as [ | | | x] eqn:E; simpl; try discriminate.
  intros H. injection H as <-. exists (String c s), x. repeat split; congruence.
Qed.

(** X9 -- [parseNumberParam] yields a number exactly for a non-empty string
    that reads as a finite number: null, the empty string, and strings read
    as NaN, Infinity or -Infinity all give null, so a parameter that is
    present is never NaN or infinite. *)
Theorem parseNumberParam_some (StringToNumber : string -> number)
    (value : option string) (n : number) :
  Nearby.parseNumberParam StringToNumber value = Some n
  <-> exists s x,
        value = Some s /\ s <> EmptyString /\ StringToNumber s = Fin x /\ n = Fin x.
Proof.
  split.
  - apply parseNumberParam_Fin.
  - intros (s & x & -> & Hs & E & ->). unfold Nearby.parseNumberParam.
    destruct s as [ | c s]; [ congruence | ]. now rewrite E.
Qed.

(** The test of the center in [parseQueryParams], on reals. *)
Lemma center_test phi lam :
  ((Fin phi <? Fin (-90)) || (Fin phi >? Fin 90)
   || (Fin lam <? Fin (-180)) || (Fin lam >? Fin 180))%js = false
  <-> -90 <= phi <= 90 /\ -180 <= lam <= 180.
Proof.
  unfold gt. rewrite !orb_false_iff, !lt_Fin_false. lra.
Qed.

Lemma parseQueryParams_inversion S searchParams q :
  Nearby.parseQueryParams S searchParams = Nearby.ParseData q ->
  exists phi lam,
    Nearby.parseNumberParam S (Nearby.URLSearchParams_get searchParams "lat")
    = Some (Fin phi)
    /\ Nearby.parseNumberParam S (Nearby.URLSearchParams_get searchParams "lon")
       = Some (Fin lam)
    /\ -90 <= phi <= 90 /\ -180 <= lam <= 180
    /\ q = {| Nearby.latitude := Fin phi;
              Nearby.longitude := Fin lam;
              Nearby.radiusKm := Nearby.parsedRadiusKm S searchParams;
              Nearby.limit := Nearby.parsedLimit S searchParams |}.
Proof.
  unfold Nearby.parseQueryParams.
  destruct (Nearby.parseNumberParam S (Nearby.URLSearchParams_get searchParams "lat"))
    as [la | ] eqn:Ela; [ | discriminate ].
  destruct (Nearby.parseNumberParam S (Nearby.URLSearchParams_get searchParams "lon"))
    as [lo | ] eqn:Elo; [ | discriminate ].
  destruct (parseNumberParam_Fin _ _ _ Ela) as (_ & phi & _ & _ & _ & ->).
  destruct (parseNumberParam_Fin _ _ _ Elo) as (_ & lam & _ & _ & _ & ->).
  destruct ((Fin phi <? Fin (-90)) || (Fin phi >? Fin 90)
            || (Fin lam <? Fin (-180)) || (Fin lam >? Fin 180))%js eqn:Et; [ discriminate | ].
  apply center_test in Et. intros H. injection H as <-.
  exists phi, lam. repeat split; try lra.
Qed.

Lemma parseQueryParams_of_valid S searchParams phi lam :
  Nearby.parseNumberParam S (Nearby.URLSearchParams_get searchParams "lat")
  = Some (Fin phi) ->
  Nearby.parseNumberParam S (Nearby.URLSearchParams_get searchParams "lon")
  = Some (Fin lam) ->
  -90 <= phi <= 90 -> -180 <= lam <= 180 ->
  Nearby.parseQueryParams S searchParams
  = Nearby.ParseData
      {| Nearby.latitude := Fin phi;
         Nearby.longitude := Fin lam;
         Nearby.radiusKm := Nearby.parsedRadiusKm S searchParams;
         Nearby.limit := Nearby.parsedLimit S searchParams |}.
Proof.
  intros E1 E2 Hphi Hlam. unfold Nearby.parseQueryParams. rewrite E1, E2.
  assert (Et : ((Fin phi <? Fin (-90)) || (Fin phi >? Fin 90)
                || (Fin lam <? Fin (-180)) || (Fin lam >? Fin 180))%js = false)
    by (apply center_test; lra).
  rewrite Et. reflexivity.
Qed.

Lemma clamped_param S value (fallback lo hi : R) :
  lo <= hi ->
  exists x,
    Nearby.clamp (Nearby.nullish (Nearby.parseNumberParam S value) (Fin fallback))
                 (Fin lo) (Fin hi) = Fin x
    /\ lo <= x <= hi.
Proof.
  intros Hle.
  destruct (Nearby.parseNumberParam S value) as [n | ] eqn:E; simpl.
  - destruct (parseNumberParam_Fin _ _ _ E) as (_ & x & _ & _ & _ & ->).
    rewrite clamp_Fin. eexists. split; [ reflexivity | now apply clampR_range ].
  - rewrite clamp_Fin. eexists. split; [ reflexivity | now apply clampR_range ].
Qed.

Lemma parsedRadiusKm_range S searchParams :
  exists r, Nearby.parsedRadiusKm S searchParams = Fin r /\ 1 / 10 <= r <= 100.
Proof. apply clamped_param. lra. Qed.

Lemma parsedLimit_range S searchParams :
  exists l, Nearby.parsedLimit S searchParams = Fin l /\ 1 <= l <= 100.
Proof. apply clamped_param. lra. Qed.

Lemma exampleQuery_parsed :
  Nearby.parseQueryParams Nearby.integerToNumber Nearby.exampleQuery
  = Nearby.ParseData
      {| Nearby.latitude := Fin 37;
         Nearby.longitude := Fin 127;
         Nearby.radiusKm := Nearby.parsedRadiusKm Nearby.integerToNumber Nearby.exampleQuery;
         Nearby.limit := Nearby.parsedLimit Nearby.integerToNumber Nearby.exampleQuery |}.
Proof. apply parseQueryParams_of_valid; try reflexivity; lra. Qed.

(** X10 -- A query that parses is safe to hand to the geo module: whenever
    [parseQueryParams] returns data, the latitude and longitude are finite
    and in [-90, 90] and [-180, 180], the radius is a real in [0.1, 100]
    and the limit a real in [1, 100]; none of them is NaN or infinite. *)
Theorem parseQueryParams_data (StringToNumber : string -> number)
    (searchParams : list (string * string)) (q : Nearby.ParsedQuery) :
  Nearby.parseQueryParams StringToNumber searchParams = Nearby.ParseData q ->
  validCoordinate {| latitude := Nearby.latitude q; longitude := Nearby.longitude q |}
  /\ (exists r, Nearby.radiusKm q = Fin r /\ 1 / 10 <= r <= 100)
  /\ (exists l, Nearby.limit q = Fin l /\ 1 <= l <= 100).
Proof.
  intros H.
  destruct (parseQueryParams_inversion _ _ _ H) as (phi & lam & _ & _ & Hphi & Hlam & ->).
  cbn [Nearby.latitude Nearby.longitude Nearby.radiusKm Nearby.limit].
  split; [ | split ].
  - split; cbn [latitude longitude]; eexists; (split; [ reflexivity | lra ]).
  - apply parsedRadiusKm_range.
  - apply parsedLimit_range.
Qed.

Lemma parseQueryParams_data_witness :
  exists q,
    Nearby.parseQueryParams Nearby.integerToNumber Nearby.exampleQuery = Nearby.ParseData q
    /\ validCoordinate {| latitude := Nearby.latitude q; longitude := Nearby.longitude q |}
    /\ (exists r, Nearby.radiusKm q = Fin r /\ 1 / 10 <= r <= 100)
    /\ (exists l, Nearby.limit q = Fin l /\ 1 <= l <= 100).
Proof.
  eexists. split; [ exact exampleQuery_parsed | ].
  exact (parseQueryParams_data _ _ _ exampleQuery_parsed).
Defined.

(** X11 -- Only the center can make a query fail: [parseQueryParams]
    returns data exactly when [lat] and [lon] are present, non-empty, read
    as finite numbers and lie in [-90, 90] and [-180, 180].  The
    parameters [distanceKm] and [limit] never cause an error, whatever they
    hold. *)
Theorem parseQueryParams_succeeds_iff (StringToNumber : string -> number)
    (searchParams : list (string * string)) :
  (exists q, Nearby.parseQueryParams StringToNumber searchParams = Nearby.ParseData q)
  <-> exists phi lam,
        Nearby.parseNumberParam StringToNumber
          (Nearby.URLSearchParams_get searchParams "lat") = Some (Fin phi)
        /\ Nearby.parseNumberParam StringToNumber
             (Nearby.URLSearchParams_get searchParams "lon") = Some (Fin lam)
        /\ -90 <= phi <= 90 /\ -180 <= lam <= 180.
Proof.
  split.
  - intros [q H].
    destruct (parseQueryParams_inversion _ _ _ H) as (phi & lam & E1 & E2 & Hphi & Hlam & _).
    now exists phi, lam.
  - intros (phi & lam & E1 & E2 & Hphi & Hlam).
    eexists. eapply parseQueryParams_of_valid; eassumption.
Qed.

(** X12 -- The radius and the limit are clamped, never rejected: in the data
    [parseQueryParams] returns, [radiusKm] is the parameter [distanceKm]
    clamped to [0.1, 100] when it is a finite number and 25 when it is
    missing, empty or not a finite number; [limit] is the parameter [limit]
    clamped to [1, 100], or 25.  A limit inside the range is kept as it is,
    a fraction included. *)
Theorem parseQueryParams_radius_and_limit (StringToNumber : string -> number)
    (searchParams : list (string * string)) (q : Nearby.ParsedQuery) :
  Nearby.parseQueryParams StringToNumber searchParams = Nearby.ParseData q ->
  Nearby.radiusKm q
  = match Nearby.parseNumberParam StringToNumber
            (Nearby.URLSearchParams_get searchParams "distanceKm") with
    | Some (Fin x) => Fin (Rmin (Rmax x (1 / 10)) 100)
    | _ => Fin 25
    end
  /\ Nearby.limit q
     = match Nearby.parseNumberParam StringToNumber
               (Nearby.URLSearchParams_get searchParams "limit") with
       | Some (Fin x) => Fin (Rmin (Rmax x 1) 100)
       | _ => Fin 25
       end.
Proof.
  intros H.
  destruct (parseQueryParams_inversion _ _ _ H) as (phi & lam & _ & _ & _ & _ & ->).
  cbn [Nearby.radiusKm Nearby.limit]. unfold Nearby.parsedRadiusKm, Nearby.parsedLimit.
  split.
  - destruct (Nearby.parseNumberParam StringToNumber
                (Nearby.URLSearchParams_get searchParams "distanceKm")) as [n | ] eqn:E.
    + destruct (parseNumberParam_Fin _ _ _ E) as (_ & x & _ & _ & _ & ->). apply clamp_Fin.
    + cbn [Nearby.nullish]. unfold Nearby.DEFAULT_RADIUS_KM, Nearby.MAX_RADIUS_KM.
      rewrite clamp_Fin. f_equal. apply clampR_id. lra.
  - destruct (Nearby.parseNumberParam StringToNumber
                (Nearby.URLSearchParams_get searchParams "limit")) as [n | ] eqn:E.
    + destruct (parseNumberParam_Fin _ _ _ E) as (_ & x & _ & _ & _ & ->). apply clamp_Fin.
    + cbn [Nearby.nullish]. unfold Nearby.DEFAULT_LIMIT, Nearby.MAX_LIMIT.
      rewrite clamp_Fin. f_equal. apply clampR_id. lra.
Qed.

Lemma parseQueryParams_radius_and_limit_witness :
  exists q,
    Nearby.parseQueryParams Nearby.integerToNumber Nearby.exampleQuery = Nearby.ParseData q
    /\ Nearby.radiusKm q
       = match Nearby.parseNumberParam Nearby.integerToNumber
                 (Nearby.URLSearchParams_get Nearby.exampleQuery "distanceKm") with
         | Some (Fin x) => Fin (Rmin (Rmax x (1 / 10)) 100)
         | _ => Fin 25
         end
    /\ Nearby.limit q
       = match Nearby.parseNumberParam Nearby.integerToNumber
                 (Nearby.URLSearchParams_get Nearby.exampleQuery "limit") with
         | Some (Fin x) => Fin (Rmin (Rmax x 1) 100)
         | _ => Fin 25
         end.
Proof.
  eexists. split; [ exact exampleQuery_parsed | ].
  exact (parseQueryParams_radius_and_limit _ _ _ exampleQuery_parsed).
Defined.

(** X13 -- The box of a parsed query is always sound: whenever
    [parseQueryParams] returns data, the box [computeBoundingBox] builds
    from its center and radius, as the fallback path does, is well formed
    (ordered bounds inside the canonical ranges, none of them NaN) and
    contains the center. *)
Theorem parsed_query_box (StringToNumber : string -> number)
    (searchParams : list (string * string)) (q : Nearby.ParsedQuery) :
  Nearby.parseQueryParams StringToNumber searchParams = Nearby.ParseData q ->
  wellFormedBox
    (computeBoundingBox
       {| center := {| latitude := Nearby.latitude q; longitude := Nearby.longitude q |};
          radiusKm := Nearby.radiusKm q |}) = true
  /\ boxContains
       (computeBoundingBox
          {| center := {| latitude := Nearby.latitude q; longitude := Nearby.longitude q |};
             radiusKm := Nearby.radiusKm q |})
       {| latitude := Nearby.latitude q; longitude := Nearby.longitude q |} = true.
Proof.
  intros H.
  destruct (parseQueryParams_inversion _ _ _ H) as (phi & lam & _ & _ & Hphi & Hlam & ->).
  cbn [Nearby.latitude Nearby.longitude Nearby.radiusKm].
  destruct (parsedRadiusKm_range StringToNumber searchParams) as (r & -> & Hr).
  change {| center := {| latitude := Fin phi; longitude := Fin lam |}; radiusKm := Fin r |}
    with (mkParams phi lam (Fin r)).
  destruct (box_around_center phi lam (Fin r) Hphi Hlam) as (a & b & c & d & -> & ?);
    [ discriminate | ].
  split; [ apply wellFormedBox_Fin | apply boxContains_Fin ]; lra.
Qed.

Lemma parsed_query_box_witness :
  exists q,
    Nearby.parseQueryParams Nearby.integerToNumber Nearby.exampleQuery = Nearby.ParseData q
    /\ wellFormedBox
         (computeBoundingBox
            {| center := {| latitude := Nearby.latitude q; longitude := Nearby.longitude q |};
               radiusKm := Nearby.radiusKm q |}) = true
    /\ boxContains
         (computeBoundingBox
            {| center := {| latitude := Nearby.latitude q; longitude := Nearby.longitude q |};
               radiusKm := Nearby.radiusKm q |})
         {| latitude := Nearby.latitude q; longitude := Nearby.longitude q |} = true.
Proof.
  eexists. split; [ exact exampleQuery_parsed | ].
  exact (parsed_query_box _ _ _ exampleQuery_parsed).
Defined.

(** *** The rows the fallback keeps *)

(** A finite distance comes from two valid coordinates. *)
Lemma finite_distance_valid p :
  Number_isFinite (calculateHaversineDistanceKm p) = true ->
  validCoordinate (origin p) /\ validCoordinate (destination p).
Proof.
  intros H.
  destruct (isLatitudeInRange (latitude (origin p))) eqn:E1;
    [ | rewrite distance_of_invalid in H;
        [ discriminate | intros [[V _] _]; apply isLatitudeInRange_true in V; congruence ] ].
  destruct (isLongitudeInRange (longitude (origin p))) eqn:E2;
    [ | rewrite distance_of_invalid in H;
        [ discriminate | intros [[_ V] _]; apply isLongitudeInRange_true in V; congruence ] ].
  destruct (isLatitudeInRange (latitude (destination p))) eqn:E3;
    [ | rewrite distance_of_invalid in H;
        [ discriminate | intros [_ [V _]]; apply isLatitudeInRange_true in V; congruence ] ].
  destruct (isLongitudeInRange (longitude (destination p))) eqn:E4;
    [ | rewrite distance_of_invalid in H;
        [ discriminate | intros [_ [_ V]]; apply isLongitudeInRange_true in V; congruence ] ].
  apply isLatitudeInRange_true in E1, E3. apply isLongitudeInRange_true in E2, E4.
  now repeat split.
Qed.

Lemma fallbackItem_some (S : string -> number) (Columns : Type)
    (latitude longitude : number) (radius : R)
    (row item : Nearby.Fallback.FallbackRow Columns) (distanceKm : number) :
  Nearby.fallbackItem S latitude longitude (Fin radius) row = Some (item, distanceKm) ->
  item = row
  /\ exists phi1 lam1 phi2 lam2,
       -90 <= phi1 <= 90 /\ -180 <= lam1 <= 180
       /\ -90 <= phi2 <= 90 /\ -180 <= lam2 <= 180
       /\ latitude = Fin phi1 /\ longitude = Fin lam1
       /\ Nearby.Number S (Nearby.Fallback.latitude row) = Fin phi2
       /\ Nearby.Number S (Nearby.Fallback.longitude row) = Fin lam2
       /\ distanceKm = Fin (distanceR (haversineR phi1 lam1 phi2 lam2))
       /\ 0 <= distanceR (haversineR phi1 lam1 phi2 lam2) <= radius.
Proof.
  unfold Nearby.fallbackItem.
  set (la := Nearby.Number S (Nearby.Fallback.latitude row)).
  set (lo := Nearby.Number S (Nearby.Fallback.longitude row)).
  destruct (negb (Number_isFinite la) || negb (Number_isFinite lo)); [ discriminate | ].
  set (p := Build_DistanceParams (Build_GeoCoordinate latitude longitude)
                                 (Build_GeoCoordinate la lo)).
  destruct (Number_isFinite (calculateHaversineDistanceKm p)) eqn:Ef;
    cbn [negb]; [ | discriminate ].
  destruct (calculateHaversineDistanceKm p >? Fin radius)%js eqn:Eg; [ discriminate | ].
  intros H. injection H as <- <-. split; [ reflexivity | ].
  destruct (finite_distance_valid p Ef) as [Vo Vd].
  destruct (valid_coordinate_params _ Vo) as (phi1 & lam1 & Hp1 & Hl1 & Eo).
  destruct (valid_coordinate_params _ Vd) as (phi2 & lam2 & Hp2 & Hl2 & Ed).
  cbn [origin destination p] in Eo, Ed.
  injection Eo as E1 E2. injection Ed as E3 E4.
  assert (Ep : p = mkDistance phi1 lam1 phi2 lam2).
  { unfold p, mkDistance, mkCoordinate. now rewrite E1, E2, E3, E4. }
  rewrite Ep in Eg |- *. rewrite distance_of_valid in Eg |- * by assumption.
  exists phi1, lam1, phi2, lam2. repeat split; try lra; try assumption.
  - apply distanceR_nonneg. now apply haversineR_range.
  - unfold gt in Eg. now apply lt_Fin_false in Eg.
Qed.

Lemma fallbackItem_of_valid (S : string -> number) (Columns : Type)
    (radius : R) (row : Nearby.Fallback.FallbackRow Columns) phi1 lam1 phi2 lam2 :
  -90 <= phi1 <= 90 -> -180 <= lam1 <= 180 ->
  -90 <= phi2 <= 90 -> -180 <= lam2 <= 180 ->
  Nearby.Number S (Nearby.Fallback.latitude row) = Fin phi2 ->
  Nearby.Number S (Nearby.Fallback.longitude row) = Fin lam2 ->
  distanceR (haversineR phi1 lam1 phi2 lam2) <= radius ->
  Nearby.fallbackItem S (Fin phi1) (Fin lam1) (Fin radius) row
  = Some (row, Fin (distanceR (haversineR phi1 lam1 phi2 lam2))).
Proof.
  intros Hp1 Hl1 Hp2 Hl2 E1 E2 Hd. unfold Nearby.fallbackItem. rewrite E1, E2.
  cbn [Number_isFinite negb orb].
  change (Build_DistanceParams (Build_GeoCoordinate (Fin phi1) (Fin lam1))
                               (Build_GeoCoordinate (Fin phi2) (Fin lam2)))
    with (mkDistance phi1 lam1 phi2 lam2).
  rewrite distance_of_valid by assumption. cbn [Number_isFinite negb].
  assert (Eg : (Fin (distanceR (haversineR phi1 lam1 phi2 lam2)) >? Fin radius)%js = false)
    by (unfold gt; now apply lt_Fin_false).
  now rewrite Eg.
Qed.

(** X14 -- Which rows the fallback keeps: for a real radius, the callback
    keeps a row exactly when the center is valid, the row's latitude and
    longitude read (through [Number]) as finite numbers in [-90, 90] and
    [-180, 180], and the distance from the center is at most the radius;
    the row is passed on unchanged together with that distance.  A row
    whose coordinates are NaN, infinite or out of range is dropped, and no
    row farther than the radius is kept. *)
Theorem fallbackItem_kept_iff (StringToNumber : string -> number) (Columns : Type)
    (latitude longitude : number) (radius : R)
    (row item : Nearby.Fallback.FallbackRow Columns) (distanceKm : number) :
  Nearby.fallbackItem StringToNumber latitude longitude (Fin radius) row
  = Some (item, distanceKm)
  <-> item = row
      /\ validCoordinate {| latitude := latitude; longitude := longitude |}
      /\ validCoordinate
           {| latitude := Nearby.Number StringToNumber (Nearby.Fallback.latitude row);
              longitude := Nearby.Number StringToNumber (Nearby.Fallback.longitude row) |}
      /\ distanceKm
         = calculateHaversineDistanceKm
             {| origin := {| latitude := latitude; longitude := longitude |};
                destination :=
                  {| latitude := Nearby.Number StringToNumber (Nearby.Fallback.latitude row);
                     longitude :=
                       Nearby.Number StringToNumber (Nearby.Fallback.longitude row) |} |}
      /\ (distanceKm <=? Fin radius)%js = true.
Proof.
  split.
  - intros H.
    destruct (fallbackItem_some _ _ _ _ _ _ _ _ H)
      as (-> & phi1 & lam1 & phi2 & lam2 & Hp1 & Hl1 & Hp2 & Hl2
          & -> & -> & E1 & E2 & -> & Hd0 & Hd).
    rewrite E1, E2.
    change {| origin := {| latitude := Fin phi1; longitude := Fin lam1 |};
              destination := {| latitude := Fin phi2; longitude := Fin lam2 |} |}
      with (mkDistance phi1 lam1 phi2 lam2).
    rewrite distance_of_valid by assumption.
    repeat split; try (cbn [latitude longitude]; eexists; split; [ reflexivity | lra ]).
    now apply le_Fin.
  - intros (-> & Vc & Vr & -> & Hle).
    destruct (valid_coordinate_params _ Vc) as (phi1 & lam1 & Hp1 & Hl1 & Ec).
    destruct (valid_coordinate_params _ Vr) as (phi2 & lam2 & Hp2 & Hl2 & Er).
    injection Ec as -> ->. injection Er as E1 E2.
    rewrite E1, E2 in Hle |- *.
    change {| origin := {| latitude := Fin phi1; longitude := Fin lam1 |};
              destination := {| latitude := Fin phi2; longitude := Fin lam2 |} |}
      with (mkDistance phi1 lam1 phi2 lam2) in Hle |- *.
    rewrite distance_of_valid in Hle |- * by assumption.
    apply le_Fin in Hle. now apply fallbackItem_of_valid.
Qed.

Lemma fallbackItems_In (S : string -> number) (Columns : Type)
    (latitude longitude radiusKm : number)
    (fallbackRows : list (Nearby.Fallback.FallbackRow Columns)) item :
  List.In item (Nearby.fallbackItems S latitude longitude radiusKm fallbackRows) ->
  exists row,
    List.In row fallbackRows
    /\ Nearby.fallbackItem S latitude longitude radiusKm row = Some item.
Proof.
  induction fallbackRows as [ | row rest IH]; cbn [Nearby.fallbackItems].
  - intros [].
  - destruct (Nearby.fallbackItem S latitude longitude radiusKm row) as [kept | ] eqn:E.
    + intros [<- | H].
      * exists row. split; [ now left | exact E ].
      * destruct (IH H) as (row' & Hin & E'). exists row'. split; [ now right | exact E' ].
    + intros H. destruct (IH H) as (row' & Hin & E'). exists row'.
      split; [ now right | exact E' ].
Qed.

Lemma exampleRow_kept :
  List.In (Nearby.exampleRow, Fin 0)
    (Nearby.fallbackItems Nearby.integerToNumber (Fin 37) (Fin 127)
       (Nearby.parsedRadiusKm Nearby.integerToNumber Nearby.exampleQuery) (Nearby.exampleRow :: nil)).
Proof.
  destruct (parsedRadiusKm_range Nearby.integerToNumber Nearby.exampleQuery) as (r & Er & Hr).
  rewrite Er. cbn [Nearby.fallbackItems].
  rewrite (fallbackItem_of_valid Nearby.integerToNumber unit r Nearby.exampleRow 37 127 37 127);
    try lra; try reflexivity.
  - rewrite haversineR_same, distanceR_0. now left.
  - rewrite haversineR_same, distanceR_0. lra.
Qed.

(** X15 -- From the query to the kept rows: when [parseQueryParams] returns
    data and the fallback filter runs with its center and radius, every
    item it keeps is one of the rows it was given, and its [distance_km] is
    a real between 0 and the parsed radius, itself at most 100 km.  The
    later [sort] and [slice] only reorder and shorten this list. *)
Theorem fallback_items_within_radius (StringToNumber : string -> number)
    (Columns : Type) (searchParams : list (string * string)) (q : Nearby.ParsedQuery)
    (fallbackRows : list (Nearby.Fallback.FallbackRow Columns))
    (item : Nearby.Fallback.FallbackRow Columns) (distanceKm : number) :
  Nearby.parseQueryParams StringToNumber searchParams = Nearby.ParseData q ->
  List.In (item, distanceKm)
    (Nearby.fallbackItems StringToNumber (Nearby.latitude q) (Nearby.longitude q)
       (Nearby.radiusKm q) fallbackRows) ->
  List.In item fallbackRows
  /\ exists d r,
       distanceKm = Fin d /\ Nearby.radiusKm q = Fin r /\ 0 <= d <= r /\ r <= 100.
Proof.
  intros H Hin.
  destruct (parseQueryParams_inversion _ _ _ H) as (phi & lam & _ & _ & Hphi & Hlam & ->).
  cbn [Nearby.latitude Nearby.longitude Nearby.radiusKm] in *.
  destruct (parsedRadiusKm_range StringToNumber searchParams) as (r & Er & Hr).
  rewrite Er in *.
  destruct (fallbackItems_In _ _ _ _ _ _ _ Hin) as (row & Hrow & E).
  destruct (fallbackItem_some _ _ _ _ _ _ _ _ E)
    as (-> & phi1 & lam1 & phi2 & lam2 & _ & _ & _ & _ & _ & _ & _ & _ & -> & Hd0 & Hd).
  split; [ exact Hrow | ].
  eexists _, r. repeat split; try reflexivity; lra.
Qed.

Lemma fallback_items_within_radius_witness :
  exists q,
    Nearby.parseQueryParams Nearby.integerToNumber Nearby.exampleQuery = Nearby.ParseData q
    /\ List.In (Nearby.exampleRow, Fin 0)
         (Nearby.fallbackItems Nearby.integerToNumber (Nearby.latitude q)
            (Nearby.longitude q) (Nearby.radiusKm q) (Nearby.exampleRow :: nil))
    /\ List.In Nearby.exampleRow (Nearby.exampleRow :: nil)
    /\ exists d r,
         Fin 0 = Fin d /\ Nearby.radiusKm q = Fin r /\ 0 <= d <= r /\ r <= 100.
Proof.
  eexists. split; [ exact exampleQuery_parsed | ].
  split; [ exact exampleRow_kept | ].
  exact (fallback_items_within_radius _ _ _ _ _ _ _ exampleQuery_parsed exampleRow_kept).
Defined.

(** X16 -- [sortByDistance] puts museums without a distance last: against a
    museum whose [distanceKm] reads as a finite number, a museum whose
    [distanceKm] is undefined or empty compares as +Infinity (after it) and
    the other way round as -Infinity; two museums with finite distances
    compare as the difference of the two numbers; and for two museums
    without a distance the comparator returns NaN
    ([Infinity - Infinity]). *)
Theorem sortByDistance_missing (StringToNumber : string -> number) (Museum : Type)
    (distanceKm : Museum -> option string) (museumA museumB : Museum) :
  let missing (m : Museum) := distanceKm m = None \/ distanceKm m = Some EmptyString in
  let reads (m : Museum) (x : R) :=
    exists text,
      distanceKm m = Some text /\ text <> EmptyString /\ StringToNumber text = Fin x in
  (missing museumA -> missing museumB ->
   Nearby.sortByDistance StringToNumber distanceKm museumA museumB = NaN)
  /\ (forall y, missing museumA -> reads museumB y ->
        Nearby.sortByDistance StringToNumber distanceKm museumA museumB = PosInfinity)
  /\ (forall x, reads museumA x -> missing museumB ->
        Nearby.sortByDistance StringToNumber distanceKm museumA museumB = NegInfinity)
  /\ (forall x y, reads museumA x -> reads museumB y ->
        Nearby.sortByDistance StringToNumber distanceKm museumA museumB = Fin (x - y)).
Proof.
  intros missing reads. unfold Nearby.sortByDistance.
  assert (Hm : forall m, missing m ->
                 match distanceKm m with
                 | None => PosInfinity
                 | Some EmptyString => PosInfinity
                 | Some (String _ _ as text) => StringToNumber text
                 end = PosInfinity).
  { intros m [E | E]; now rewrite E. }
  assert (Hr : forall m x, reads m x ->
                 match distanceKm m with
                 | None => PosInfinity
                 | Some EmptyString => PosInfinity
                 | Some (String _ _ as text) => StringToNumber text
                 end = Fin x).
  { intros m x (text & E & Hne & Ex). rewrite E.
    destruct text as [ | c t]; [ congruence | exact Ex ]. }
  repeat split.
  - intros HA HB. now rewrite (Hm _ HA), (Hm _ HB).
  - intros y HA HB. now rewrite (Hm _ HA), (Hr _ _ HB).
  - intros x HA HB. now rewrite (Hr _ _ HA), (Hm _ HB).
  - intros x y HA HB. now rewrite (Hr _ _ HA), (Hr _ _ HB).
Qed.

End NearbyEndpoint.

(** * The module in double precision

    What the code computes on binary64 floats.  Nothing here depends on a
    Math library beyond the values named in the statements. *)

Section DoublePrecision.

Import Floats IEEE.
Local Open Scope float_scope.

(** Evaluate the float arithmetic, leaving the calls of the Math library. *)
Tactic Notation "float_eval" :=
  cbv - [Math_sin Math_cos Math_asin Math_atan2 exponentiate].
Tactic Notation "float_eval" "in" hyp(H) :=
  cbv - [Math_sin Math_cos Math_asin Math_atan2 exponentiate] in H.

Ltac range_checks p :=
  destruct (isLatitudeInRange (latitude (origin p)));
  destruct (isLongitudeInRange (longitude (origin p)));
  destruct (isLatitudeInRange (latitude (destination p)));
  destruct (isLongitudeInRange (longitude (destination p))).

(** ** Finite floats and zero *)

Lemma float_finite_cases x :
  is_finite x = true ->
  (exists s, Prim2SF x = S754_zero s) \/ (exists s m e, Prim2SF x = S754_finite s m e).
Proof.
  unfold is_finite, is_nan, is_infinity.
  rewrite !eqb_spec, abs_spec.
  destruct (Prim2SF x) as [s | s | | s m e] eqn:E; simpl.
  - intros _. left. now exists s.
  - destruct s; vm_compute; discriminate.
  - vm_compute; discriminate.
  - intros _. right. now exists s, m, e.
Qed.

(** [x - x] is [+0] for a finite [x]. *)
Lemma float_sub_diag x : is_finite x = true -> x - x = 0.
Proof.
  intros H. apply Prim2SF_inj. rewrite sub_spec.
  destruct (float_finite_cases x H) as [[s ->] | (s & m & e & ->)].
  - destruct s; reflexivity.
  - unfold SF64sub, SFsub. rewrite Z.sub_diag. reflexivity.
Qed.

Lemma float_mul_zero z c :
  (exists s, Prim2SF z = S754_zero s) -> is_finite c = true ->
  exists s, Prim2SF (z * c) = S754_zero s.
Proof.
  intros [s Hz] Hc. rewrite mul_spec, Hz.
  destruct (float_finite_cases c Hc) as [[s' ->] | (s' & m & e & ->)]; simpl; eauto.
Qed.

Lemma float_zero_plus_zero z : (exists s, Prim2SF z = S754_zero s) -> 0 + z = 0.
Proof.
  intros [s Hz]. apply Prim2SF_inj. rewrite add_spec, Hz.
  destruct s; reflexivity.
Qed.

Lemma haversine_of_zero c1 c2 :
  is_finite c1 = true -> is_finite c2 = true -> 0 + 0 * c1 * c2 = 0.
Proof.
  intros H1 H2. apply float_zero_plus_zero.
  apply float_mul_zero; [ | assumption ].
  apply float_mul_zero; [ | assumption ].
  exists false. reflexivity.
Qed.

Lemma latitude_in_range_finite v : isLatitudeInRange v = true -> is_finite v = true.
Proof.
  unfold isLatitudeInRange, Number_isFinite. intros H.
  apply andb_prop in H. destruct H as [H _].
  apply andb_prop in H. now destruct H.
Qed.

Lemma longitude_in_range_finite v : isLongitudeInRange v = true -> is_finite v = true.
Proof.
  unfold isLongitudeInRange, Number_isFinite. intros H.
  apply andb_prop in H. destruct H as [H _].
  apply andb_prop in H. now destruct H.
Qed.

(** ** The range checks and the result *)

(** Every input that fails a range check yields NaN, whatever the Math
    library. *)
Lemma invalid_input_is_nan (M : MathLibrary) (p : DistanceParams) :
  validDistanceParams p = false -> calculateHaversineDistanceKm M p = nan.
Proof.
  unfold validDistanceParams, validCoordinate, calculateHaversineDistanceKm.
  range_checks p; simpl; intros H; try reflexivity; discriminate.
Qed.

Lemma distance_of_checked (M : MathLibrary) (p : DistanceParams) :
  validDistanceParams p = true ->
  calculateHaversineDistanceKm M p
  = EARTH_RADIUS_KM
    * (2 * Math_atan2 M (Math_sqrt (haversineA M p)) (Math_sqrt (1 - haversineA M p))).
Proof.
  unfold validDistanceParams, validCoordinate, calculateHaversineDistanceKm.
  range_checks p; simpl; intros H; try discriminate; reflexivity.
Qed.

(** The identity of the distance holds to the last bit: for a coordinate
    that passes the range checks the distance to itself is [+0], for every
    Math library with the values ECMAScript prescribes at zero
    ([Math.sin] of [+0], [(+0) ** 2], [Math.atan2] of [+0] and [1] are
    [+0]) and a finite cosine at the latitude. *)
Lemma identity_in_double_precision (M : MathLibrary) (c : GeoCoordinate) :
  validCoordinate c = true ->
  Math_sin M 0 = 0 ->
  exponentiate M 0 2 = 0 ->
  Math_atan2 M 0 1 = 0 ->
  is_finite (Math_cos M (toRadians (latitude c))) = true ->
  calculateHaversineDistanceKm M {| origin := c; destination := c |} = 0.
Proof.
  intros Hv Hs Hp Ha Hc.
  rewrite distance_of_checked by (unfold validDistanceParams; simpl; now rewrite Hv).
  unfold validCoordinate in Hv. apply andb_prop in Hv. destruct Hv as [Hlat Hlon].
  assert (E : haversineA M {| origin := c; destination := c |} = 0).
  { unfold haversineA. cbn [origin destination].
    rewrite (float_sub_diag _ (latitude_in_range_finite _ Hlat)).
    rewrite (float_sub_diag _ (longitude_in_range_finite _ Hlon)).
    change (toRadians 0 / 2) with 0.
    rewrite Hs, Hp. now apply haversine_of_zero. }
  rewrite E.
  change (Math_sqrt 0) with 0. change (Math_sqrt (1 - 0)) with 1.
  rewrite Ha. reflexivity.
Qed.

(** ** The box near a pole and for an invalid center *)

Lemma invalid_center_whole_globe (M : MathLibrary) (p : BoundingBoxParams) :
  validCoordinate (center p) = false ->
  computeBoundingBox M p
  = {| minLatitude := -90; maxLatitude := 90; minLongitude := -180; maxLongitude := 180 |}.
Proof.
  unfold validCoordinate, computeBoundingBox.
  destruct (isLatitudeInRange (latitude (center p)));
    destruct (isLongitudeInRange (longitude (center p)));
    simpl; intros H; try discriminate; reflexivity.
Qed.

(** The repository's test near the pole: center (89.5, 45), radius 100 km. *)
Lemma pole_example_in_double_precision (M : MathLibrary) :
  computeBoundingBox M
    {| center := {| latitude := 0x1.66p+6; longitude := 45 |}; radiusKm := 100 |}
  = {| minLatitude := 0x1.6267183ca7f8cp+6; maxLatitude := 90;
       minLongitude := -180; maxLongitude := 180 |}.
Proof. float_eval. reflexivity. Qed.

(** ** The antipodal pair *)

Lemma antipodal_pair_checked : validDistanceParams antipodalPair = true.
Proof. reflexivity. Qed.

Lemma antipodal_haversine (M : MathLibrary) :
  roundsAntipodalPair M -> haversineA M antipodalPair = 0x1.0000000000001p+0.
Proof.
  intros (Hs & Hs1 & Hc & Hc' & Hp & Hp1 & Ha).
  float_eval. rewrite Hs, Hs1, Hp, Hp1, Hc, Hc'. reflexivity.
Qed.

Lemma antipodal_distance (M : MathLibrary) :
  roundsAntipodalPair M -> calculateHaversineDistanceKm M antipodalPair = nan.
Proof.
  intros H. rewrite distance_of_checked by reflexivity.
  rewrite antipodal_haversine by assumption.
  destruct H as (_ & _ & _ & _ & _ & _ & Ha).
  float_eval. float_eval in Ha. rewrite Ha. reflexivity.
Qed.

Lemma tabulatedMath_rounds : roundsAntipodalPair tabulatedMath.
Proof. repeat split. Qed.

(** The tabulated sines and cosines of magnitude below 0.3 are the values
    fdlibm's kernels compute. *)
Lemma kernels_at_table :
  kernel_sin 0x1.83d37cc267209p-3 = 0x1.81832924baee1p-3
  /\ kernel_cos 0x1.83d37cc267209p-3 = 0x1.f6d8df5a8b5c8p-1
  /\ kernel_sin 0x1.f7fec7e1801e8p-3 = 0x1.f2ec6d637c270p-3
  /\ kernel_cos 0x1.f46bb9c109324p-3 = 0x1.f0ca99f79ba25p-1
  /\ kernel_cos 0x1.fb91d601f70abp-3 = 0x1.f05b24121e27fp-1.
Proof. repeat split; vm_compute; reflexivity. Qed.

(** C9 -- Totality on the valid domain fails in double precision.  The
    antipodal points (10.85, 0) and (-10.85, 180) pass the range checks;
    with the sines and cosines rounded to nearest, the quantity [a] is
    computed as [1 + 2^-52] (in exact arithmetic it is 1), above the
    interval [0, 1]; [1 - a] is negative, its square root is NaN, and the
    distance returned is NaN, not a finite non-negative number.  The code
    does not clamp [a] before taking the square roots. *)
Theorem antipodal_distance_not_finite (M : MathLibrary) :
  roundsAntipodalPair M ->
  validDistanceParams antipodalPair = true
  /\ haversineA M antipodalPair = 0x1.0000000000001p+0
  /\ (haversineA M antipodalPair <=? 1) = false
  /\ is_nan (Math_sqrt (1 - haversineA M antipodalPair)) = true
  /\ Number_isFinite (calculateHaversineDistanceKm M antipodalPair) = false.
Proof.
  intros H.
  rewrite (antipodal_distance M H), (antipodal_haversine M H).
  repeat split.
Qed.

Lemma antipodal_distance_not_finite_witness :
  roundsAntipodalPair tabulatedMath
  /\ validDistanceParams antipodalPair = true
  /\ haversineA tabulatedMath antipodalPair = 0x1.0000000000001p+0
  /\ (haversineA tabulatedMath antipodalPair <=? 1) = false
  /\ is_nan (Math_sqrt (1 - haversineA tabulatedMath antipodalPair)) = true
  /\ Number_isFinite (calculateHaversineDistanceKm tabulatedMath antipodalPair) = false.
Proof.
  split.
  - exact tabulatedMath_rounds.
  - exact (antipodal_distance_not_finite tabulatedMath tabulatedMath_rounds).
Defined.

(** C4 -- The NaN sentinel is not exact in double precision.  NaN is
    returned for every input that fails a range check
    ([invalid_input_is_nan]), but not only for those: each of the four
    numbers of the antipodal pair (10.85, 0), (-10.85, 180) is finite and
    passes its range check, and the function returns NaN for it. *)
Theorem nan_for_valid_coordinates (M : MathLibrary) :
  roundsAntipodalPair M ->
  isLatitudeInRange (latitude (origin antipodalPair)) = true
  /\ isLongitudeInRange (longitude (origin antipodalPair)) = true
  /\ isLatitudeInRange (latitude (destination antipodalPair)) = true
  /\ isLongitudeInRange (longitude (destination antipodalPair)) = true
  /\ is_nan (calculateHaversineDistanceKm M antipodalPair) = true.
Proof.
  intros H. rewrite (antipodal_distance M H). repeat split.
Qed.

Lemma nan_for_valid_coordinates_witness :
  roundsAntipodalPair tabulatedMath
  /\ isLatitudeInRange (latitude (origin antipodalPair)) = true
  /\ isLongitudeInRange (longitude (origin antipodalPair)) = true
  /\ isLatitudeInRange (latitude (destination antipodalPair)) = true
  /\ isLongitudeInRange (longitude (destination antipodalPair)) = true
  /\ is_nan (calculateHaversineDistanceKm tabulatedMath antipodalPair) = true.
Proof.
  split.
  - exact tabulatedMath_rounds.
  - exact (nan_for_valid_coordinates tabulatedMath tabulatedMath_rounds).
Defined.

(** ** The two orders of a pair *)

(** C7 as stated fails for the doubles the code computes.  From (14, 0) to
    (-14.2, 179.9) the product [sin^2 * cos 14 * cos 14.2] is rounded after
    the multiplication by the cosine of 14 degrees, in the other direction
    after that by the cosine of 14.2 degrees; the two values of [a] differ
    in the last bit, and near the antipode the arctangent magnifies the
    difference: the distances are 19990.370861124527 and
    19990.370861124164 km, and [==] of the two is false.  The sines,
    cosines and arctangents are the tabulated ones, the values rounded to
    nearest. *)
Lemma near_antipodal_distance_not_symmetric :
  validDistanceParams nearAntipodalPair = true
  /\ haversineA tabulatedMath nearAntipodalPair = 0x1.ffff81c03c215p-1
  /\ haversineA tabulatedMath (swapped nearAntipodalPair) = 0x1.ffff81c03c214p-1
  /\ calculateHaversineDistanceKm tabulatedMath nearAntipodalPair
     = 0x1.38597bc304c4dp+14
  /\ calculateHaversineDistanceKm tabulatedMath (swapped nearAntipodalPair)
     = 0x1.38597bc304be9p+14
  /\ (calculateHaversineDistanceKm tabulatedMath nearAntipodalPair
      =? calculateHaversineDistanceKm tabulatedMath (swapped nearAntipodalPair)) = false.
Proof. repeat split; vm_compute; reflexivity. Qed.

(** ** The box in double precision

    The comparisons of binary64, on the specification side, and what the
    clamps and the floor of the radius give for every float and every Math
    library. *)

(** Comparison with a positive finite float, on the specification side. *)
Lemma SFcompare_positive x m e :
  SFcompare x (S754_finite false m e)
  = match x with
    | S754_nan => None
    | S754_infinity s => Some (if s then Lt else Gt)
    | S754_zero _ => Some Lt
    | S754_finite true _ _ => Some Lt
    | S754_finite false m' e' =>
        Some match Z.compare e' e with
             | Lt => Lt
             | Gt => Gt
             | Eq => Pos.compare m' m
             end
    end.
Proof. destruct x as [s | s | | s m' e']; try destruct s; reflexivity. Qed.

Lemma SFcompare_positive_swap x m e :
  SFcompare (S754_finite false m e) x
  = match SFcompare x (S754_finite false m e) with
    | Some c => Some (CompOpp c)
    | None => None
    end.
Proof.
  rewrite SFcompare_positive.
  destruct x as [s | s | | s m' e']; try destruct s; try reflexivity.
  unfold SFcompare. rewrite (Z.compare_antisym e' e).
  destruct (Z.compare e' e); cbn [CompOpp]; try reflexivity.
  change (Pos.compare_cont Eq m m') with (Pos.compare m m').
  now rewrite (Pos.compare_antisym m' m).
Qed.

Lemma SFcompare_positive_eq x m e :
  SFcompare x (S754_finite false m e) = Some Eq -> x = S754_finite false m e.
Proof.
  rewrite SFcompare_positive.
  destruct x as [s | s | | s m' e']; try destruct s; try discriminate.
  destruct (Z.compare_spec e' e) as [-> | _ | _]; try discriminate.
  destruct (Pos.compare_spec m' m) as [-> | _ | _]; try discriminate.
  reflexivity.
Qed.

Lemma Math_max_of_le r b m e :
  Prim2SF b = S754_finite false m e ->
  (r <=? b) = true -> Math_max r b = b.
Proof.
  intros Eb H. unfold Math_max.
  assert (Hb : is_nan b = false).
  { unfold is_nan. rewrite eqb_spec, Eb. unfold SFeqb.
    rewrite SFcompare_positive, Z.compare_refl, Pos.compare_refl. reflexivity. }
  rewrite leb_spec, Eb in H. unfold SFleb in H.
  assert (Hr : is_nan r = false).
  { unfold is_nan. rewrite eqb_spec. unfold SFeqb.
    destruct (Prim2SF r) as [s | s | | s m' e'].
    - reflexivity.
    - destruct s; reflexivity.
    - discriminate.
    - unfold SFcompare. rewrite Z.compare_refl, Pos.compare_cont_refl.
      destruct s; reflexivity. }
  rewrite Hr, Hb. cbn [orb].
  rewrite !ltb_spec, Eb. unfold SFltb.
  rewrite SFcompare_positive_swap.
  destruct (SFcompare (Prim2SF r) (S754_finite false m e)) as [[ | | ] | ] eqn:Ec;
    try discriminate; cbn [CompOpp].
  - apply SFcompare_positive_eq in Ec.
    assert (E : r = b) by (apply Prim2SF_inj; congruence).
    rewrite E, classify_spec, Eb. unfold SF64classify, SFclassify.
    destruct (Z.eqb _ _); reflexivity.
  - reflexivity.
Qed.

Lemma SFcompare_swap x y :
  SFcompare y x
  = match SFcompare x y with
    | Some c => Some (CompOpp c)
    | None => None
    end.
Proof.
  destruct x as [s | s | | s m e]; destruct y as [s' | s' | | s' m' e'];
    try destruct s; try destruct s'; try reflexivity.
  - unfold SFcompare. rewrite (Z.compare_antisym e e').
    destruct (Z.compare e e'); cbn [CompOpp]; try reflexivity.
    change (Pos.compare_cont Eq m' m) with (Pos.compare m' m).
    change (Pos.compare_cont Eq m m') with (Pos.compare m m').
    now rewrite (Pos.compare_antisym m m'), CompOpp_involutive.
  - unfold SFcompare. rewrite (Z.compare_antisym e e').
    destruct (Z.compare e e'); cbn [CompOpp]; try reflexivity.
    change (Pos.compare_cont Eq m' m) with (Pos.compare m' m).
    change (Pos.compare_cont Eq m m') with (Pos.compare m m').
    now rewrite (Pos.compare_antisym m m').
Qed.

(** The ordering of two floats, as the comparisons of the code see it. *)
Lemma float_order_cases x y :
  (is_nan x || is_nan y = true)
  \/ (is_nan x = false /\ is_nan y = false
      /\ (((x <? y) = true /\ (y <? x) = false /\ (x <=? y) = true)
          \/ ((x <? y) = false /\ (y <? x) = true /\ (y <=? x) = true)
          \/ ((x <? y) = false /\ (y <? x) = false
              /\ (x <=? y) = true /\ (y <=? x) = true))).
Proof.
  unfold is_nan. rewrite !eqb_spec, !ltb_spec, !leb_spec.
  unfold SFeqb, SFltb, SFleb. rewrite (SFcompare_swap (Prim2SF x) (Prim2SF y)).
  assert (Hx : forall z, SFcompare z z = None \/ SFcompare z z = Some Eq).
  { intros [s | s | | s m e]; try destruct s; auto; right; unfold SFcompare;
      rewrite Z.compare_refl, Pos.compare_cont_refl; reflexivity. }
  assert (Hn : forall z w, SFcompare z z = None -> SFcompare z w = None).
  { intros [s | s | | s m e] w; try destruct s; try discriminate. reflexivity. }
  assert (Hn' : forall z w, SFcompare w w = None -> SFcompare z w = None).
  { intros z [s | s | | s m e]; try destruct s; try discriminate.
    destruct z as [s | s | | s m e]; reflexivity. }
  destruct (Hx (Prim2SF x)) as [Ex | Ex]; rewrite Ex; [ left; reflexivity | ].
  destruct (Hx (Prim2SF y)) as [Ey | Ey]; rewrite Ey; [ left; reflexivity | ].
  right. cbn [negb]. split; [ reflexivity | split; [ reflexivity | ] ].
  destruct (SFcompare (Prim2SF x) (Prim2SF y)) as [[ | | ] | ] eqn:Ec; cbn [CompOpp].
  - right; right. auto.
  - left. auto.
  - right; left. auto.
  - exfalso.
    destruct (Prim2SF x) as [s | s | | s m e]; destruct (Prim2SF y) as [s' | s' | | s' m' e'];
      try destruct s; try destruct s'; discriminate.
Qed.

Lemma clamp_canonical lo hi v :
  is_nan lo = false -> is_nan hi = false -> (lo <=? hi) = true ->
  (lo <=? lo) = true -> (hi <=? hi) = true ->
  canonicalOrNaN lo hi (Math_min (Math_max v lo) hi) = true.
Proof.
  intros Nlo Nhi Hle Hlo Hhi. unfold canonicalOrNaN.
  assert (Hm : is_nan (Math_max v lo) = true
               \/ (is_nan (Math_max v lo) = false /\ (lo <=? Math_max v lo) = true)).
  { unfold Math_max.
    destruct (float_order_cases v lo) as [Hn | (Nv & _ & [H | [H | H]])].
    - rewrite Hn. left. reflexivity.
    - destruct H as (H1 & H2 & H3). rewrite Nv, Nlo, H1. cbn [orb]. right. auto.
    - destruct H as (H1 & H2 & H3). rewrite Nv, Nlo, H1, H2. cbn [orb]. right. auto.
    - destruct H as (H1 & H2 & H3 & H4). rewrite Nv, Nlo, H1, H2. cbn [orb]. right.
      destruct (classify v); auto. }
  destruct Hm as [Hm | [Nm Hm]].
  - unfold Math_min. rewrite Hm. cbn [orb]. reflexivity.
  - assert (Hr : forall c, (c = Math_max v lo \/ c = hi) ->
                           is_nan c = false /\ (lo <=? c) = true).
    { intros c [-> | ->]; auto. }
    unfold Math_min.
    destruct (float_order_cases (Math_max v lo) hi) as [Hn | (_ & _ & [H | [H | H]])].
    + rewrite Nm, Nhi in Hn. discriminate.
    + destruct H as (H1 & H2 & H3). rewrite Nm, Nhi, H2, H1. cbn [orb].
      rewrite Nm, Hm, H3. reflexivity.
    + destruct H as (H1 & H2 & H3). rewrite Nm, Nhi, H2. cbn [orb].
      rewrite Nhi, Hle, Hhi. reflexivity.
    + destruct H as (H1 & H2 & H3 & H4). rewrite Nm, Nhi, H2, H1. cbn [orb].
      destruct (classify (Math_max v lo)); rewrite ?Nm, ?Hm, ?H3, ?Nhi, ?Hle, ?Hhi; reflexivity.
Qed.

Lemma clampLatitude_canonical v : canonicalOrNaN (-90) 90 (clampLatitude v) = true.
Proof. apply clamp_canonical; reflexivity. Qed.

Lemma clampLongitude_canonical v : canonicalOrNaN (-180) 180 (clampLongitude v) = true.
Proof. apply clamp_canonical; reflexivity. Qed.

Lemma is_nan_true x : is_nan x = true -> x = nan.
Proof.
  unfold is_nan. rewrite eqb_spec. unfold SFeqb. intros H.
  apply Prim2SF_inj. change (Prim2SF nan) with S754_nan.
  destruct (Prim2SF x) as [s | s | | s m e]; try reflexivity.
  - destruct s; discriminate.
  - destruct s; discriminate.
  - exfalso. unfold SFcompare in H.
    rewrite Z.compare_refl, Pos.compare_cont_refl in H. destruct s; discriminate.
Qed.

Lemma float_sub_nan x : x - nan = nan.
Proof.
  apply Prim2SF_inj. rewrite sub_spec. change (Prim2SF nan) with S754_nan.
  destruct (Prim2SF x) as [s | s | | s m e]; try destruct s; reflexivity.
Qed.

Lemma float_add_nan x : x + nan = nan.
Proof.
  apply Prim2SF_inj. rewrite add_spec. change (Prim2SF nan) with S754_nan.
  destruct (Prim2SF x) as [s | s | | s m e]; try destruct s; reflexivity.
Qed.

(** X17 -- The floor of the radius, in double precision: every radius that
    compares at most 0.1 (zero, a negative number, -Infinity, a tiny
    positive number) gives exactly the box of the radius 0.1, bit for bit
    and for every Math library. *)
Theorem radius_floor_in_double_precision (M : MathLibrary) (p : BoundingBoxParams) :
  (radiusKm p <=? 0x1.999999999999ap-4) = true ->
  computeBoundingBox M p
  = computeBoundingBox M {| center := center p; radiusKm := 0x1.999999999999ap-4 |}.
Proof.
  intros H. unfold computeBoundingBox. cbn [center radiusKm].
  rewrite (Math_max_of_le (radiusKm p) 0x1.999999999999ap-4
             7205759403792794%positive (-56)%Z eq_refl H).
  rewrite (Math_max_of_le 0x1.999999999999ap-4 0x1.999999999999ap-4
             7205759403792794%positive (-56)%Z eq_refl eq_refl).
  reflexivity.
Qed.

Lemma radius_floor_in_double_precision_witness :
  (radiusKm {| center := {| latitude := 37; longitude := 127 |}; radiusKm := -5 |}
   <=? 0x1.999999999999ap-4) = true
  /\ computeBoundingBox tabulatedMath
       {| center := {| latitude := 37; longitude := 127 |}; radiusKm := -5 |}
     = computeBoundingBox tabulatedMath
         {| center := {| latitude := 37; longitude := 127 |};
            radiusKm := 0x1.999999999999ap-4 |}.
Proof.
  split.
  - reflexivity.
  - exact (radius_floor_in_double_precision tabulatedMath
             {| center := {| latitude := 37; longitude := 127 |}; radiusKm := -5 |}
             eq_refl).
Defined.

(** X18 -- No bound of a box leaves the canonical range, in double
    precision: for every input (NaN and infinite radii and centers
    included) and every Math library, each latitude bound of the box is NaN
    or lies in [-90, 90], and each longitude bound is NaN or lies in
    [-180, 180]. *)
Theorem box_bounds_canonical_or_nan (M : MathLibrary) (p : BoundingBoxParams) :
  canonicalOrNaN (-90) 90 (minLatitude (computeBoundingBox M p)) = true
  /\ canonicalOrNaN (-90) 90 (maxLatitude (computeBoundingBox M p)) = true
  /\ canonicalOrNaN (-180) 180 (minLongitude (computeBoundingBox M p)) = true
  /\ canonicalOrNaN (-180) 180 (maxLongitude (computeBoundingBox M p)) = true.
Proof.
  unfold computeBoundingBox.
  destruct (negb (isLatitudeInRange (latitude (center p)))
            || negb (isLongitudeInRange (longitude (center p)))).
  - repeat split.
  - match goal with
    | |- context [if ?c then _ else _] => destruct c
    end; cbn [minLatitude maxLatitude minLongitude maxLongitude];
      repeat split;
      try apply clampLatitude_canonical; try apply clampLongitude_canonical.
Qed.

(** X19 -- A NaN radius is not floored, in double precision: for a center
    that passes the range checks and a radius that is NaN, [Math.max] with
    0.1 is NaN and both latitude bounds of the returned box are NaN, for
    every Math library. *)
Theorem nan_radius_in_double_precision (M : MathLibrary) (p : BoundingBoxParams) :
  validCoordinate (center p) = true ->
  is_nan (radiusKm p) = true ->
  is_nan (minLatitude (computeBoundingBox M p)) = true
  /\ is_nan (maxLatitude (computeBoundingBox M p)) = true.
Proof.
  intros Hv Hn. apply is_nan_true in Hn.
  unfold validCoordinate in Hv. apply andb_prop in Hv. destruct Hv as [Hlat Hlon].
  cbv beta zeta delta [computeBoundingBox].
  rewrite Hlat, Hlon, Hn. cbn [negb orb].
  change (Math_max nan 0x1.999999999999ap-4) with nan.
  change (nan / EARTH_RADIUS_KM) with nan.
  rewrite float_sub_nan, float_add_nan.
  change (clampLatitude (toDegrees nan)) with nan.
  change ((nan <=? MIN_LATITUDE) || (MAX_LATITUDE <=? nan)) with false.
  cbn [minLatitude maxLatitude]. split; reflexivity.
Qed.

Lemma nan_radius_in_double_precision_witness :
  validCoordinate
    (center {| center := {| latitude := 37; longitude := 127 |}; radiusKm := nan |}) = true
  /\ is_nan
       (radiusKm {| center := {| latitude := 37; longitude := 127 |}; radiusKm := nan |})
     = true
  /\ is_nan
       (minLatitude
          (computeBoundingBox tabulatedMath
             {| center := {| latitude := 37; longitude := 127 |}; radiusKm := nan |}))
     = true
  /\ is_nan
       (maxLatitude
          (computeBoundingBox tabulatedMath
             {| center := {| latitude := 37; longitude := 127 |}; radiusKm := nan |}))
     = true.
Proof.
  split; [ reflexivity | split; [ reflexivity | ] ].
  exact (nan_radius_in_double_precision tabulatedMath
           {| center := {| latitude := 37; longitude := 127 |}; radiusKm := nan |}
           eq_refl eq_refl).
Defined.

End DoublePrecision.
